(** * cinter: sentinel_result.hpp and safe_string.hpp

    A shallow embedding of the two header-only templates of the [cinter]
    namespace, and the properties their specification states about them.

    - [sentinel_result<T, sentinel, SuccessComp>] is a record holding one
      value; the template parameters are parameters of the record type.
    - [basic_safe_string<Char>] is a record holding one pointer.  Member
      functions that read the pointed-to characters take the memory they
      read as an argument and return an [outcome]: a result, a fault
      (the C++ program has undefined behaviour there), or exhaustion of the
      fuel that bounds the scanning loops.  [end()] calls a member that
      its [const] qualifier does not let it call; its uses, and those of
      iteration, are [IllFormed] rather than an [outcome]. *)

From Stdlib Require Import ZArith NArith List Bool Lia.
Import ListNotations.

(* ================================================================== *)
(** * Outcomes of member functions that read memory *)

Inductive fault : Type :=
| NullDeref   (* a null pointer was dereferenced *)
| BadAccess.  (* a read outside of any live object *)

Inductive outcome (A : Type) : Type :=
| Done (a : A)
| Fault (f : fault)
| OutOfFuel.

Arguments Done {A} a.
Arguments Fault {A} f.
Arguments OutOfFuel {A}.

Definition bind {A B : Type} (x : outcome A) (k : A -> outcome B) : outcome B :=
  match x with
  | Done a => k a
  | Fault f => Fault f
  | OutOfFuel => OutOfFuel
  end.

Notation "x <- c ;; k" := (bind c (fun x => k))
  (at level 61, c at next level, right associativity).

(* ================================================================== *)
(** * Pointers and memory

    A pointer is null or designates an element of an array object (a block
    and an element offset).  The blocks are the five empty string literals
    of [empty_string] (static storage; each literal is taken to be one
    object, the same at every evaluation, as implementations have it) and
    the caller's buffers.  Offsets and lengths are [std::size_t] values; a
    block never holds more elements than [std::size_t] can count, so the
    [++len] of the scanning loops does not wrap and is written on [N]. *)

Inductive char_type : Type :=
| char
| wchar_t
| char8_t
| char16_t
| char32_t
| other_char (tag : N).   (* any other type supplied for [Char] *)

(** A character is represented by the integer its character traits order
    it by ([unsigned char] value for [char], the code unit otherwise);
    [Char{}] is [0]. *)
Definition Char : Type := Z.
Definition Char_zero : Char := 0%Z.

Inductive block : Type :=
| StrLit (C : char_type)   (* the literal "", L"", u8"", u"" or U"" *)
| Ext (id : N).            (* a buffer owned by the caller *)

Inductive pointer : Type :=
| nullptr
| Ptr (b : block) (ofs : N).

(** The caller's buffers: contents of each live block, element by element
    (terminator included, when there is one). *)
Definition memory : Type := N -> option (list Char).

Definition block_contents (m : memory) (b : block) : option (list Char) :=
  match b with
  | StrLit _ => Some [Char_zero]
  | Ext id => m id
  end.

(** [*p] *)
Definition load (m : memory) (p : pointer) : outcome Char :=
  match p with
  | nullptr => Fault NullDeref
  | Ptr b ofs =>
      match block_contents m b with
      | None => Fault BadAccess
      | Some l =>
          match nth_error l (N.to_nat ofs) with
          | Some c => Done c
          | None => Fault BadAccess
          end
      end
  end.

(** [p + n] *)
Definition ptr_add (p : pointer) (n : N) : pointer :=
  match p with
  | nullptr => nullptr
  | Ptr b ofs => Ptr b (ofs + n)
  end.

Definition char_type_eqb (a b : char_type) : bool :=
  match a, b with
  | char, char | wchar_t, wchar_t | char8_t, char8_t
  | char16_t, char16_t | char32_t, char32_t => true
  | other_char s, other_char t => N.eqb s t
  | _, _ => false
  end.

Definition block_eqb (a b : block) : bool :=
  match a, b with
  | StrLit c, StrLit d => char_type_eqb c d
  | Ext i, Ext j => N.eqb i j
  | _, _ => false
  end.

(** [p == q] on pointers *)
Definition ptr_eqb (p q : pointer) : bool :=
  match p, q with
  | nullptr, nullptr => true
  | Ptr b i, Ptr c j => block_eqb b c && N.eqb i j
  | _, _ => false
  end.

(** [p] points to the null-terminated character sequence [cs]: the
    characters of [cs], none of them [Char{}], followed by [Char{}]. *)
Fixpoint cstr_at (m : memory) (p : pointer) (cs : list Char) : Prop :=
  match cs with
  | [] => load m p = Done Char_zero
  | c :: cs' =>
      c <> Char_zero /\ load m p = Done c /\ cstr_at m (ptr_add p 1) cs'
  end.

(* ================================================================== *)
(** * sentinel_result.hpp *)

(** Element types: what the default template arguments ask of [T], a
    conversion of the literal [0] and [operator==]. *)
Class Element (T : Type) : Type := {
  static_cast_0 : T;                    (* static_cast<T>(0) *)
  op_equal : T -> T -> bool             (* a == b *)
}.

(** [operator==] of [T] decides equality of values (integers, enumerations
    and pointers; not floating point). *)
Class ElementLaws (T : Type) `{Element T} : Prop := {
  op_equal_spec : forall a b : T, op_equal a b = true <-> a = b
}.

(** [int]: 32 bits, two's complement. *)
Definition int : Type := Z.
Definition int_wrap (z : Z) : int := ((z + 2 ^ 31) mod 2 ^ 32 - 2 ^ 31)%Z.

#[export] Instance Element_int : Element int := {
  static_cast_0 := int_wrap 0;
  op_equal := Z.eqb
}.

(** [const Char*]: [static_cast<const Char*>(0)] is the null pointer. *)
#[export] Instance Element_pointer : Element pointer := {
  static_cast_0 := nullptr;
  op_equal := ptr_eqb
}.

(** The function objects of <functional> used as [SuccessComp]. *)
Definition equal_to {T : Type} `{Element T} : T -> T -> bool :=
  fun a b => op_equal a b.
Definition not_equal_to {T : Type} `{Element T} : T -> T -> bool :=
  fun a b => negb (op_equal a b).
Definition less_int : int -> int -> bool := Z.ltb.

(** [template <typename T, T sentinel, typename SuccessComp>
     class sentinel_result { T value_; ... }]
    The constructor [sentinel_result(const T value) : value_(value)] is the
    record constructor. *)
Record sentinel_result (T : Type) (sentinel : T)
       (SuccessComp : T -> T -> bool) : Type :=
  Build_sentinel_result { value_ : T }.

Arguments Build_sentinel_result {T} sentinel SuccessComp value_.
Arguments value_ {T sentinel SuccessComp} _.

Definition value {T : Type} {sentinel : T} {SuccessComp : T -> T -> bool}
  (r : sentinel_result T sentinel SuccessComp) : T :=
  value_ r.

Definition is_ok {T : Type} {sentinel : T} {SuccessComp : T -> T -> bool}
  (r : sentinel_result T sentinel SuccessComp) : bool :=
  SuccessComp (value_ r) sentinel.

Definition has_error {T : Type} {sentinel : T} {SuccessComp : T -> T -> bool}
  (r : sentinel_result T sentinel SuccessComp) : bool :=
  negb (is_ok r).

(** [sentinel_result<T>]: the defaults
    [sentinel = static_cast<T>(0)], [SuccessComp = std::equal_to<T>]. *)
Definition sentinel_result_default (T : Type) `{Element T} : Type :=
  sentinel_result T static_cast_0 equal_to.

Definition Build_default (T : Type) `{Element T} (v : T)
  : sentinel_result_default T :=
  Build_sentinel_result static_cast_0 equal_to v.

(** The example instantiations of the header's comment. *)
Definition SentinelHResult : Type := sentinel_result_default int.
Definition XenomaiResult : Type := sentinel_result int 0%Z less_int.
Definition StringResult : Type := sentinel_result pointer nullptr not_equal_to.

(* ================================================================== *)
(** * The operations of <string> and <string_view> that the class calls

    Written from the C++ standard's description of [std::char_traits],
    [std::basic_string] and [std::basic_string_view]. *)

(** [traits::length(s)]: the smallest [i] such that [s[i]] is [Char{}].
    The constructors below require [s] to point to a null-terminated
    array; on a null pointer the behaviour is undefined, here the fault of
    reading through it (an implementation may instead throw
    [std::logic_error]). *)
Fixpoint traits_length (fuel : nat) (m : memory) (s : pointer) (i : N)
  : outcome N :=
  match fuel with
  | O => OutOfFuel
  | S fuel' =>
      c <- load m (ptr_add s i) ;;
      if Z.eqb c Char_zero then Done i
      else traits_length fuel' m s (i + 1)
  end.

(** [traits::copy]: the [n] characters starting at [s]. *)
Fixpoint read_chars (m : memory) (s : pointer) (n : nat)
  : outcome (list Char) :=
  match n with
  | O => Done []
  | S n' =>
      c <- load m s ;;
      cs <- read_chars m (ptr_add s 1) n' ;;
      Done (c :: cs)
  end.

(** [std::basic_string<Char>(const Char* s)]: a copy of the
    [traits::length(s)] characters at [s]. An owned string is the list of
    its characters. *)
Definition basic_string_from (fuel : nat) (m : memory) (s : pointer)
  : outcome (list Char) :=
  n <- traits_length fuel m s 0 ;;
  read_chars m s (N.to_nat n).

(** [std::basic_string_view<Char>]: a pointer and a length. *)
Record basic_string_view : Type := {
  sv_data : pointer;
  sv_size : N
}.

(** [std::basic_string_view<Char>(const Char* s)] *)
Definition basic_string_view_from (fuel : nat) (m : memory) (s : pointer)
  : outcome basic_string_view :=
  n <- traits_length fuel m s 0 ;;
  Done {| sv_data := s; sv_size := n |}.

(** The standard fixes the sign of what [traits::compare] and
    [basic_string_view::compare] return, not the magnitude: that is the
    library's choice (a [memcmp] returns a difference of two bytes, the
    generic character traits return [1], libstdc++ returns the difference
    of the two lengths).  A library is given by the magnitude it returns
    for two differing characters and for two differing lengths. *)
Class std_library : Type := {
  char_magnitude : Char -> Char -> positive;
  size_magnitude : N -> N -> positive
}.

(** [traits::compare(p, q, n)]: negative, zero or positive as the first
    difference among the first [n] characters says. *)
Fixpoint traits_compare {L : std_library} (m : memory) (p q : pointer)
  (n : nat) : outcome Z :=
  match n with
  | O => Done 0%Z
  | S n' =>
      a <- load m p ;;
      b <- load m q ;;
      if Z.ltb a b then Done (Z.neg (char_magnitude a b))
      else if Z.ltb b a then Done (Z.pos (char_magnitude a b))
      else traits_compare m (ptr_add p 1) (ptr_add q 1) n'
  end.

(** [x.compare(y)]: the characters of the common length are compared; if
    they are equal the two lengths decide. *)
Definition sv_compare {L : std_library} (m : memory)
  (x y : basic_string_view) : outcome Z :=
  let rlen := N.min (sv_size x) (sv_size y) in
  r <- traits_compare m (sv_data x) (sv_data y) (N.to_nat rlen) ;;
  if Z.eqb r 0 then
    Done (if N.ltb (sv_size x) (sv_size y)
          then Z.neg (size_magnitude (sv_size x) (sv_size y))
          else if N.eqb (sv_size x) (sv_size y) then 0%Z
          else Z.pos (size_magnitude (sv_size x) (sv_size y)))
  else Done r.

(** [x == y] is [x.compare(y) == 0] *)
Definition sv_equal {L : std_library} (m : memory)
  (x y : basic_string_view) : outcome bool :=
  r <- sv_compare m x y ;;
  Done (Z.eqb r 0).

(** [x <=> y] is [x.compare(y) <=> 0]; an ordering is a [comparison]. *)
Definition sv_spaceship {L : std_library} (m : memory)
  (x y : basic_string_view) : outcome comparison :=
  r <- sv_compare m x y ;;
  Done (Z.compare r 0).

(* ================================================================== *)
(** * safe_string.hpp *)

(** [template <typename Char = char>
     class basic_safe_string { const Char* ptr; ... }] *)
Record basic_safe_string (C : char_type) : Type :=
  Build_basic_safe_string { ptr : pointer }.

Arguments ptr {C} _.

(** Conversion of a pointer to [bool], as in [!ptr] and [ptr ? _ : _]. *)
Definition ptr_to_bool (p : pointer) : bool :=
  match p with
  | nullptr => false
  | Ptr _ _ => true
  end.

(** The chain of [if constexpr (std::is_same_v<Char, ...>)].  The
    [char8_t] branch is under [#ifdef __cpp_char8_t]; the type [char8_t]
    exists exactly when that macro is defined. *)
Definition empty_string (C : char_type) : pointer :=
  match C with
  | char => Ptr (StrLit char) 0
  | wchar_t => Ptr (StrLit wchar_t) 0
  | char8_t => Ptr (StrLit char8_t) 0
  | char16_t => Ptr (StrLit char16_t) 0
  | char32_t => Ptr (StrLit char32_t) 0
  | other_char _ => nullptr
  end.

(** [basic_safe_string() : ptr(nullptr)] *)
Definition default_constructed (C : char_type) : basic_safe_string C :=
  Build_basic_safe_string C nullptr.

(** [basic_safe_string(const Char* src) : ptr(src)] *)
Definition from_pointer (C : char_type) (src : pointer) : basic_safe_string C :=
  Build_basic_safe_string C src.

Definition is_null {C : char_type} (self : basic_safe_string C) : bool :=
  negb (ptr_to_bool (ptr self)).

Definition operator_bool {C : char_type} (self : basic_safe_string C) : bool :=
  negb (ptr_eqb (ptr self) nullptr).

Definition c_str {C : char_type} (self : basic_safe_string C) : pointer :=
  if ptr_to_bool (ptr self) then ptr self else empty_string C.

(** The loop of the private [length()]:
    [while (s[len] != Char{}) ++len; return len;]
    The header declares [length()] without [const]; its only caller is
    [end()], below. *)
Fixpoint length_loop (fuel : nat) (m : memory) (s : pointer) (len : N)
  : outcome N :=
  match fuel with
  | O => OutOfFuel
  | S fuel' =>
      c <- load m (ptr_add s len) ;;
      if negb (Z.eqb c Char_zero) then length_loop fuel' m s (len + 1)
      else Done len
  end.

Definition length {C : char_type} (fuel : nat) (m : memory)
  (self : basic_safe_string C) : outcome N :=
  let s := c_str self in
  length_loop fuel m s 0.

Definition string {C : char_type} (fuel : nat) (m : memory)
  (self : basic_safe_string C) : outcome (list Char) :=
  basic_string_from fuel m (c_str self).

Definition view {C : char_type} (fuel : nat) (m : memory)
  (self : basic_safe_string C) : outcome basic_string_view :=
  basic_string_view_from fuel m (c_str self).

(** ** Comparison

    With [__cpp_lib_three_way_comparison] the class declares
    [operator<=>] alone; without it, the six relational operators. *)

(** [view() <=> other.view()] *)
Definition operator_spaceship {L : std_library} {C : char_type} (fuel : nat)
  (m : memory) (self other : basic_safe_string C) : outcome comparison :=
  x <- view fuel m self ;;
  y <- view fuel m other ;;
  sv_spaceship m x y.

(** [view() == other.view()] *)
Definition operator_eq {L : std_library} {C : char_type} (fuel : nat)
  (m : memory) (self other : basic_safe_string C) : outcome bool :=
  x <- view fuel m self ;;
  y <- view fuel m other ;;
  sv_equal m x y.

(** [!( *this == other)] *)
Definition operator_ne {L : std_library} {C : char_type} (fuel : nat)
  (m : memory) (self other : basic_safe_string C) : outcome bool :=
  e <- operator_eq fuel m self other ;;
  Done (negb e).

(** [view().compare(other.view())], the operand of the four operators
    below. *)
Definition compare_views {L : std_library} {C : char_type} (fuel : nat)
  (m : memory) (self other : basic_safe_string C) : outcome Z :=
  x <- view fuel m self ;;
  y <- view fuel m other ;;
  sv_compare m x y.

Definition operator_lt {L : std_library} {C : char_type} (fuel : nat)
  (m : memory) (self other : basic_safe_string C) : outcome bool :=
  r <- compare_views fuel m self other ;;
  Done (Z.ltb r 0).

Definition operator_le {L : std_library} {C : char_type} (fuel : nat)
  (m : memory) (self other : basic_safe_string C) : outcome bool :=
  r <- compare_views fuel m self other ;;
  Done (Z.leb r 0).

Definition operator_gt {L : std_library} {C : char_type} (fuel : nat)
  (m : memory) (self other : basic_safe_string C) : outcome bool :=
  r <- compare_views fuel m self other ;;
  Done (Z.gtb r 0).

Definition operator_ge {L : std_library} {C : char_type} (fuel : nat)
  (m : memory) (self other : basic_safe_string C) : outcome bool :=
  r <- compare_views fuel m self other ;;
  Done (Z.geb r 0).

(** The relational expressions as a translation unit sees them.  With
    [three_way = true] the compiler rewrites [a @ b] into
    [(a <=> b) @ 0] for the four ordering operators; the class has no
    [operator==] in that build, and equality of two views is taken to be
    [std::is_eq(a <=> b)], inequality [std::is_neq(a <=> b)]. *)
Definition is_eq (o : comparison) : bool :=
  match o with Eq => true | _ => false end.
Definition is_lt (o : comparison) : bool :=
  match o with Lt => true | _ => false end.
Definition is_gt (o : comparison) : bool :=
  match o with Gt => true | _ => false end.

Definition expr_eq {L : std_library} {C : char_type} (three_way : bool)
  (fuel : nat) (m : memory) (a b : basic_safe_string C) : outcome bool :=
  if three_way then o <- operator_spaceship fuel m a b ;; Done (is_eq o)
  else operator_eq fuel m a b.

Definition expr_ne {L : std_library} {C : char_type} (three_way : bool)
  (fuel : nat) (m : memory) (a b : basic_safe_string C) : outcome bool :=
  if three_way then o <- operator_spaceship fuel m a b ;; Done (negb (is_eq o))
  else operator_ne fuel m a b.

Definition expr_lt {L : std_library} {C : char_type} (three_way : bool)
  (fuel : nat) (m : memory) (a b : basic_safe_string C) : outcome bool :=
  if three_way then o <- operator_spaceship fuel m a b ;; Done (is_lt o)
  else operator_lt fuel m a b.

Definition expr_le {L : std_library} {C : char_type} (three_way : bool)
  (fuel : nat) (m : memory) (a b : basic_safe_string C) : outcome bool :=
  if three_way then o <- operator_spaceship fuel m a b ;; Done (negb (is_gt o))
  else operator_le fuel m a b.

Definition expr_gt {L : std_library} {C : char_type} (three_way : bool)
  (fuel : nat) (m : memory) (a b : basic_safe_string C) : outcome bool :=
  if three_way then o <- operator_spaceship fuel m a b ;; Done (is_gt o)
  else operator_gt fuel m a b.

Definition expr_ge {L : std_library} {C : char_type} (three_way : bool)
  (fuel : nat) (m : memory) (a b : basic_safe_string C) : outcome bool :=
  if three_way then o <- operator_spaceship fuel m a b ;; Done (negb (is_lt o))
  else operator_ge fuel m a b.

(** The six relational expressions, indexed by their operator. *)
Inductive relop : Type := EQ | NE | LT | LE | GT | GE.

Definition expr {L : std_library} {C : char_type} (op : relop)
  (three_way : bool) (fuel : nat)
  (m : memory) (a b : basic_safe_string C) : outcome bool :=
  match op with
  | EQ => expr_eq three_way fuel m a b
  | NE => expr_ne three_way fuel m a b
  | LT => expr_lt three_way fuel m a b
  | LE => expr_le three_way fuel m a b
  | GT => expr_gt three_way fuel m a b
  | GE => expr_ge three_way fuel m a b
  end.

(** ** Iteration

    A member function is declared with or without [const].  Inside a
    [const] member [this] points to a [const] object, and a call of a
    member declared without [const] on it is ill-formed: the compiler
    rejects the function once it is used.  ([constexpr] does not make a
    member [const]; the header uses [if constexpr] and [std::string_view],
    so it is compiled as C++17 or later.) *)

Inductive cv_qualifier : Type :=
| unqualified        (* [T f()] *)
| const_qualified.   (* [T f() const] *)

Definition may_call (caller callee : cv_qualifier) : bool :=
  match caller, callee with
  | const_qualified, unqualified => false
  | _, _ => true
  end.

(** The qualifiers as the header declares them. *)
Definition c_str_cv : cv_qualifier := const_qualified.
     (* [constexpr const Char* c_str() const] *)
Definition length_cv : cv_qualifier := unqualified.
     (* [constexpr std::size_t length()] *)
Definition begin_cv : cv_qualifier := const_qualified.
     (* [constexpr const_iterator begin() const noexcept] *)
Definition end_cv : cv_qualifier := const_qualified.
     (* [constexpr const_iterator end() const noexcept] *)

(** What a use of a member function gives: the function compiles and a
    call has the given meaning, or the use is ill-formed. *)
Inductive compiled (A : Type) : Type :=
| Compiles (a : A)
| IllFormed.

Arguments Compiles {A} a.
Arguments IllFormed {A}.

Definition begin {C : char_type} (self : basic_safe_string C) : pointer :=
  c_str self.

(** [end() const { return c_str() + length(); }] *)
Definition end_ {C : char_type} (fuel : nat) (m : memory)
  (self : basic_safe_string C) : compiled (outcome pointer) :=
  if may_call end_cv c_str_cv && may_call end_cv length_cv then
    Compiles (len <- length fuel m self ;;
              Done (ptr_add (c_str self) len))
  else IllFormed.

Definition cbegin {C : char_type} (self : basic_safe_string C) : pointer :=
  begin self.

(** [cend() const { return end(); }] *)
Definition cend {C : char_type} (fuel : nat) (m : memory)
  (self : basic_safe_string C) : compiled (outcome pointer) :=
  end_ fuel m self.

(** [for (; it != last; ++it) out.push_back( *it);] *)
Fixpoint walk (fuel : nat) (m : memory) (it last : pointer)
  : outcome (list Char) :=
  match fuel with
  | O => OutOfFuel
  | S fuel' =>
      if ptr_eqb it last then Done []
      else
        c <- load m it ;;
        cs <- walk fuel' m (ptr_add it 1) last ;;
        Done (c :: cs)
  end.

(** A range-based [for] over the view: [begin()] and [end()] are each
    requested once, then the range is walked.  It compiles only if both
    do. *)
Definition iterate {C : char_type} (fuel : nat) (m : memory)
  (self : basic_safe_string C) : compiled (outcome (list Char)) :=
  let first := begin self in
  match end_ fuel m self with
  | IllFormed => IllFormed
  | Compiles last =>
      Compiles (e <- last ;; walk fuel m first e)
  end.

(** ** Implicit conversions and the aliases of the header *)

(** [operator const Char*() const {return c_str();}] *)
Definition operator_const_Char_ptr {C : char_type}
  (self : basic_safe_string C) : pointer :=
  c_str self.

(** [operator std::basic_string<Char>() const {return c_str();}] *)
Definition operator_basic_string {C : char_type} (fuel : nat) (m : memory)
  (self : basic_safe_string C) : outcome (list Char) :=
  basic_string_from fuel m (c_str self).

(** [operator std::basic_string_view<Char>() const {return view();}] *)
Definition operator_basic_string_view {C : char_type} (fuel : nat)
  (m : memory) (self : basic_safe_string C) : outcome basic_string_view :=
  view fuel m self.

Definition safe_string : Type := basic_safe_string char.
Definition safe_wstring : Type := basic_safe_string wchar_t.
Definition safe_u8string : Type := basic_safe_string char8_t.
Definition safe_u16string : Type := basic_safe_string char16_t.
Definition safe_u32string : Type := basic_safe_string char32_t.

(* ================================================================== *)
(** * Vocabulary of the properties *)

(** The character types for which [empty_string] has a literal. *)
Definition supported (C : char_type) : bool :=
  match C with
  | other_char _ => false
  | _ => true
  end.

(** A memory made of the given buffers, numbered from [0]. *)
Definition memory_of (bufs : list (list Char)) : memory :=
  fun id => nth_error bufs (N.to_nat id).

(** A pointer to the first element of a caller's buffer. *)
Definition buffer (id : N) : pointer := Ptr (Ext id) 0.

(** Ordinary lexicographic comparison of two character sequences. *)
Fixpoint lex_compare (xs ys : list Char) : comparison :=
  match xs, ys with
  | [], [] => Eq
  | [], _ :: _ => Lt
  | _ :: _, [] => Gt
  | x :: xs', y :: ys' =>
      match Z.compare x y with
      | Eq => lex_compare xs' ys'
      | o => o
      end
  end.

(** The lexicographic order as a relation: a proper prefix comes first,
    otherwise the first difference decides. *)
Inductive lex_lt : list Char -> list Char -> Prop :=
| lex_lt_nil : forall y ys, lex_lt [] (y :: ys)
| lex_lt_head : forall x y xs ys, (x < y)%Z -> lex_lt (x :: xs) (y :: ys)
| lex_lt_tail : forall x xs ys, lex_lt xs ys -> lex_lt (x :: xs) (x :: ys).

(** What a view stands for: the empty sequence when the reference is
    absent, the characters before the first terminator of its buffer
    otherwise. *)
Inductive denotes (m : memory) {C : char_type}
  : basic_safe_string C -> list Char -> Prop :=
| denotes_absent : denotes m (default_constructed C) []
| denotes_buffer : forall b ofs cs,
    cstr_at m (Ptr b ofs) cs ->
    denotes m (from_pointer C (Ptr b ofs)) cs.

(** What the library returns for the first difference within the common
    prefix of two sequences, [0] when one is a prefix of the other. *)
Fixpoint prefix_sign {L : std_library} (xs ys : list Char) : Z :=
  match xs, ys with
  | x :: xs', y :: ys' =>
      if Z.ltb x y then Z.neg (char_magnitude x y)
      else if Z.ltb y x then Z.pos (char_magnitude x y)
      else prefix_sign xs' ys'
  | _, _ => 0%Z
  end.

(** What the library's [compare] returns on two views of the sequences
    [xs] and [ys]. *)
Definition compare_result {L : std_library} (xs ys : list Char) : Z :=
  let nx := N.of_nat (List.length xs) in
  let ny := N.of_nat (List.length ys) in
  if Z.eqb (prefix_sign xs ys) 0 then
    if N.ltb nx ny then Z.neg (size_magnitude nx ny)
    else if N.eqb nx ny then 0%Z
    else Z.pos (size_magnitude nx ny)
  else prefix_sign xs ys.

(** Two libraries for the examples: one returns [-1] and [1] throughout,
    the other the difference of the two characters or lengths. *)
Definition unit_library : std_library :=
  {| char_magnitude := fun _ _ => 1%positive;
     size_magnitude := fun _ _ => 1%positive |}.

Definition difference_library : std_library :=
  {| char_magnitude := fun a b => Z.to_pos (Z.abs (a - b));
     size_magnitude := fun x y => Z.to_pos (Z.abs (Z.of_N x - Z.of_N y)) |}.

(** Whether operator [op] holds between two sequences ordered as [o]. *)
Definition holds (op : relop) (o : comparison) : bool :=
  match op with
  | EQ => is_eq o
  | NE => negb (is_eq o)
  | LT => is_lt o
  | LE => negb (is_gt o)
  | GT => is_gt o
  | GE => negb (is_lt o)
  end.

(** A memory with no caller buffer at all. *)
Definition empty_memory : memory := memory_of [].

(** Four caller buffers used in the examples: "abc", "abd", a second
    "abc" at another address, and an empty string (ASCII codes). *)
Definition example_memory : memory :=
  memory_of [ [97; 98; 99; 0]; [97; 98; 100; 0]; [97; 98; 99; 0]; [0] ]%Z.

(** The same buffers after the caller has shortened the first to "a". *)
Definition example_memory_later : memory :=
  memory_of [ [97; 0; 99; 0]; [97; 98; 100; 0]; [97; 98; 99; 0]; [0] ]%Z.

(** A caller buffer holding 'a', 'b' and no terminator. *)
Definition example_unterminated : memory :=
  memory_of [ [97; 98] ]%Z.

(* ================================================================== *)
(** * Facts about pointers and null-terminated sequences *)

Lemma ptr_add_0 (p : pointer) : ptr_add p 0 = p.
Proof. destruct p; simpl; [reflexivity | now rewrite N.add_0_r]. Qed.

Lemma ptr_add_add (p : pointer) (i j : N) :
  ptr_add (ptr_add p i) j = ptr_add p (i + j).
Proof. destruct p; simpl; [reflexivity | now rewrite N.add_assoc]. Qed.

Lemma ptr_eqb_refl (p : pointer) : ptr_eqb p p = true.
Proof.
  destruct p as [|b i]; simpl; [reflexivity|].
  rewrite N.eqb_refl, andb_true_r.
  destruct b as [c|j]; simpl; [destruct c; simpl; auto using N.eqb_refl|].
  apply N.eqb_refl.
Qed.

Lemma ptr_eqb_eq (p q : pointer) : ptr_eqb p q = true <-> p = q.
Proof.
  split; [|intros ->; apply ptr_eqb_refl].
  destruct p as [|b i], q as [|c j]; simpl; try congruence.
  intros H. apply andb_true_iff in H. destruct H as [Hb Hi].
  apply N.eqb_eq in Hi. subst j.
  destruct b as [c1|i1], c as [c2|i2]; simpl in Hb; try discriminate.
  - destruct c1, c2; simpl in Hb; try discriminate; try reflexivity.
    apply N.eqb_eq in Hb. now subst.
  - apply N.eqb_eq in Hb. now subst.
Qed.

Lemma ptr_eqb_add_neq (b : block) (ofs k : N) :
  (0 < k)%N -> ptr_eqb (Ptr b ofs) (Ptr b (ofs + k)) = false.
Proof.
  intros Hk. simpl. apply andb_false_iff. right. apply N.eqb_neq. lia.
Qed.

#[export] Instance ElementLaws_int : ElementLaws int.
Proof. constructor. intros a b. apply Z.eqb_eq. Qed.

#[export] Instance ElementLaws_pointer : ElementLaws pointer.
Proof. constructor. intros a b. apply ptr_eqb_eq. Qed.

(** A buffer whose elements are the non-zero characters [cs], then a
    terminator, then anything, holds the null-terminated sequence [cs];
    so does the rest of a buffer after any prefix [pre]. *)
Lemma cstr_at_block (m : memory) (b : block) (cs : list Char) :
  forall (pre rest : list Char),
    block_contents m b = Some (pre ++ cs ++ Char_zero :: rest) ->
    Forall (fun c => c <> Char_zero) cs ->
    cstr_at m (Ptr b (N.of_nat (List.length pre))) cs.
Proof.
  induction cs as [|c cs IH]; intros pre rest Hm Hnz; simpl.
  - rewrite Hm, Nat2N.id, nth_error_app2, Nat.sub_diag by lia.
    reflexivity.
  - inversion Hnz as [|? ? Hc Hcs]; subst.
    split; [exact Hc|]. split.
    + rewrite Hm, Nat2N.id, nth_error_app2, Nat.sub_diag by lia.
      reflexivity.
    + replace (N.of_nat (List.length pre) + 1)%N
        with (N.of_nat (List.length (pre ++ [c])))
        by (rewrite length_app; simpl; lia).
      apply (IH (pre ++ [c]) rest); [|exact Hcs].
      rewrite Hm, <- app_assoc. reflexivity.
Qed.

Lemma cstr_at_buffer (m : memory) (id : N) (cs rest : list Char) :
  m id = Some (cs ++ Char_zero :: rest) ->
  Forall (fun c => c <> Char_zero) cs ->
  cstr_at m (buffer id) cs.
Proof.
  intros Hm Hnz. exact (cstr_at_block m (Ext id) cs [] rest Hm Hnz).
Qed.

(** Conversely, the characters of a null-terminated sequence are not
    [Char{}]. *)
Lemma cstr_at_nonzero (m : memory) (cs : list Char) :
  forall p, cstr_at m p cs -> Forall (fun c => c <> Char_zero) cs.
Proof.
  induction cs as [|c cs IH]; intros p H; constructor; simpl in H.
  - tauto.
  - destruct H as (_ & _ & H). eauto.
Qed.

(** A null-terminated sequence starts at a non-null pointer. *)
Lemma cstr_at_not_null (m : memory) (p : pointer) (cs : list Char) :
  cstr_at m p cs -> p <> nullptr.
Proof.
  intros H ->. destruct cs as [|c cs]; simpl in H.
  - discriminate.
  - destruct H as (_ & H & _). discriminate.
Qed.

(** The sequence a pointer points to is unique. *)
Lemma cstr_at_inj (m : memory) (cs ds : list Char) :
  forall p, cstr_at m p cs -> cstr_at m p ds -> cs = ds.
Proof.
  revert ds. induction cs as [|c cs IH]; intros [|d ds] p Hc Hd; simpl in *.
  - reflexivity.
  - destruct Hd as (Hd0 & Hd & _). rewrite Hc in Hd. congruence.
  - destruct Hc as (Hc0 & Hc & _). rewrite Hd in Hc. congruence.
  - destruct Hc as (_ & Hc & Hc'), Hd as (_ & Hd & Hd').
    rewrite Hc in Hd. injection Hd as ->. f_equal. eauto.
Qed.

(** A view stands for at most one sequence. *)
Lemma denotes_unique (m : memory) (C : char_type) (v : basic_safe_string C)
  (cs ds : list Char) :
  denotes m v cs -> denotes m v ds -> cs = ds.
Proof.
  intros Hc Hd. destruct Hc as [|b ofs cs Hc].
  - inversion Hd. reflexivity.
  - inversion Hd as [|b' ofs' ds' Hd' E]; subst.
    exact (cstr_at_inj m cs ds (Ptr b ofs) Hc Hd').
Qed.

(** The scan of [length()] stops at the terminator, given fuel for one
    test per character and one for the terminator. *)
Lemma length_loop_cstr (m : memory) (s : pointer) (cs : list Char) :
  forall (fuel : nat) (len : N),
    cstr_at m (ptr_add s len) cs ->
    (List.length cs < fuel)%nat ->
    length_loop fuel m s len = Done (len + N.of_nat (List.length cs))%N.
Proof.
  induction cs as [|c cs IH]; intros fuel len H Hf;
    (destruct fuel as [|fuel]; [simpl in Hf; lia|]); simpl in *.
  - rewrite H. simpl. now rewrite N.add_0_r.
  - destruct H as (Hc & Hl & Hrest). rewrite Hl. simpl.
    apply Z.eqb_neq in Hc. rewrite Hc. simpl.
    rewrite ptr_add_add in Hrest. rewrite IH by (auto; lia).
    f_equal. lia.
Qed.

(** [traits::length] finds the same terminator. *)
Lemma traits_length_cstr (m : memory) (s : pointer) (cs : list Char) :
  forall (fuel : nat) (i : N),
    cstr_at m (ptr_add s i) cs ->
    (List.length cs < fuel)%nat ->
    traits_length fuel m s i = Done (i + N.of_nat (List.length cs))%N.
Proof.
  induction cs as [|c cs IH]; intros fuel i H Hf;
    (destruct fuel as [|fuel]; [simpl in Hf; lia|]); simpl in *.
  - rewrite H. simpl. now rewrite N.add_0_r.
  - destruct H as (Hc & Hl & Hrest). rewrite Hl. simpl.
    apply Z.eqb_neq in Hc. rewrite Hc.
    rewrite ptr_add_add in Hrest. rewrite IH by (auto; lia).
    f_equal. lia.
Qed.

Lemma read_chars_cstr (m : memory) (cs : list Char) :
  forall p, cstr_at m p cs -> read_chars m p (List.length cs) = Done cs.
Proof.
  induction cs as [|c cs IH]; intros p H; simpl in *.
  - reflexivity.
  - destruct H as (_ & Hl & Hrest). rewrite Hl. simpl.
    now rewrite IH.
Qed.

Lemma basic_string_from_cstr (m : memory) (p : pointer) (cs : list Char)
  (fuel : nat) :
  cstr_at m p cs -> (List.length cs < fuel)%nat ->
  basic_string_from fuel m p = Done cs.
Proof.
  intros H Hf. unfold basic_string_from.
  rewrite (traits_length_cstr m p cs) by (rewrite ?ptr_add_0; auto).
  simpl. rewrite Nat2N.id. now apply read_chars_cstr.
Qed.

Lemma basic_string_view_from_cstr (m : memory) (p : pointer)
  (cs : list Char) (fuel : nat) :
  cstr_at m p cs -> (List.length cs < fuel)%nat ->
  basic_string_view_from fuel m p =
  Done {| sv_data := p; sv_size := N.of_nat (List.length cs) |}.
Proof.
  intros H Hf. unfold basic_string_view_from.
  rewrite (traits_length_cstr m p cs) by (rewrite ?ptr_add_0; auto).
  reflexivity.
Qed.

(* ================================================================== *)
(** * Comparison of views is lexicographic comparison of contents *)

Section LibraryComparison.
Context {L : std_library}.

Lemma traits_compare_cstr (m : memory) (ca : list Char) :
  forall (cb : list Char) (p q : pointer),
    cstr_at m p ca -> cstr_at m q cb ->
    traits_compare m p q (Nat.min (List.length ca) (List.length cb)) =
    Done (prefix_sign ca cb).
Proof.
  induction ca as [|a ca IH]; intros [|b cb] p q Hp Hq; simpl in *;
    try reflexivity.
  destruct Hp as (_ & Hp & Hp'), Hq as (_ & Hq & Hq').
  rewrite Hp, Hq. simpl.
  destruct (Z.ltb a b); [reflexivity|].
  destruct (Z.ltb b a); [reflexivity|].
  now apply IH.
Qed.

Lemma sv_compare_cstr (m : memory) (p q : pointer) (ca cb : list Char) :
  cstr_at m p ca -> cstr_at m q cb ->
  sv_compare m {| sv_data := p; sv_size := N.of_nat (List.length ca) |}
               {| sv_data := q; sv_size := N.of_nat (List.length cb) |} =
  Done (compare_result ca cb).
Proof.
  intros Hp Hq. unfold sv_compare, compare_result. cbn [sv_data sv_size].
  replace (N.to_nat (N.min (N.of_nat (List.length ca))
                           (N.of_nat (List.length cb))))
    with (Nat.min (List.length ca) (List.length cb)) by lia.
  rewrite (traits_compare_cstr m ca cb p q Hp Hq). cbn [bind].
  destruct (Z.eqb (prefix_sign ca cb) 0); reflexivity.
Qed.

(** Whatever the magnitudes, the sign of [compare] is the lexicographic
    ordering of the two sequences. *)
Lemma compare_result_sign (ca : list Char) :
  forall cb : list Char,
    Z.compare (compare_result ca cb) 0 = lex_compare ca cb.
Proof.
  induction ca as [|a ca IH]; intros [|b cb]; try reflexivity.
  specialize (IH cb). unfold compare_result in *.
  cbn [prefix_sign lex_compare].
  destruct (Z.ltb_spec a b) as [Hab|Hab].
  - rewrite (proj2 (Z.compare_lt_iff a b) Hab). reflexivity.
  - destruct (Z.ltb_spec b a) as [Hba|Hba].
    + rewrite (proj2 (Z.compare_gt_iff a b) Hba). reflexivity.
    + assert (a = b) by lia. subst b. rewrite Z.compare_refl.
      rewrite <- IH.
      destruct (Z.eqb (prefix_sign ca cb) 0); [|reflexivity].
      cbn [List.length].
      destruct (N.ltb_spec (N.of_nat (List.length ca))
                           (N.of_nat (List.length cb)));
        destruct (N.ltb_spec (N.of_nat (S (List.length ca)))
                             (N.of_nat (S (List.length cb))));
        try lia; try reflexivity.
      destruct (N.eqb_spec (N.of_nat (List.length ca))
                           (N.of_nat (List.length cb)));
        destruct (N.eqb_spec (N.of_nat (S (List.length ca)))
                             (N.of_nat (S (List.length cb))));
        try lia; reflexivity.
Qed.

End LibraryComparison.

(** The tests of the result of [compare] against [0] read its sign. *)
Lemma sign_tests (r : Z) :
  Z.eqb r 0 = is_eq (Z.compare r 0) /\
  Z.ltb r 0 = is_lt (Z.compare r 0) /\
  Z.leb r 0 = negb (is_gt (Z.compare r 0)) /\
  Z.gtb r 0 = is_gt (Z.compare r 0) /\
  Z.geb r 0 = negb (is_lt (Z.compare r 0)).
Proof. destruct r; repeat split. Qed.

(** [lex_compare] decides the order [lex_lt] and equality. *)
Lemma lex_compare_eq (xs : list Char) :
  forall ys, lex_compare xs ys = Eq <-> xs = ys.
Proof.
  induction xs as [|x xs IH]; intros [|y ys]; simpl;
    try (split; congruence).
  destruct (Z.compare_spec x y) as [->|H|H].
  - rewrite IH. split; congruence.
  - split; [discriminate | intros E; injection E; lia].
  - split; [discriminate | intros E; injection E; lia].
Qed.

Lemma lex_compare_lt (xs : list Char) :
  forall ys, lex_compare xs ys = Lt <-> lex_lt xs ys.
Proof.
  induction xs as [|x xs IH]; intros [|y ys]; simpl.
  - split; [discriminate | inversion 1].
  - split; [constructor | reflexivity].
  - split; [discriminate | inversion 1].
  - destruct (Z.compare_spec x y) as [->|H|H].
    + rewrite IH. split; [now constructor|].
      inversion 1; subst; [lia | assumption].
    + split; [now constructor | reflexivity].
    + split; [discriminate|]. inversion 1; subst; lia.
Qed.

Lemma lex_compare_antisym (xs : list Char) :
  forall ys, lex_compare ys xs = CompOpp (lex_compare xs ys).
Proof.
  induction xs as [|x xs IH]; intros [|y ys]; simpl; try reflexivity.
  rewrite (Z.compare_antisym x y).
  destruct (Z.compare x y); simpl; auto.
Qed.

Lemma lex_compare_gt (xs ys : list Char) :
  lex_compare xs ys = Gt <-> lex_lt ys xs.
Proof.
  rewrite <- lex_compare_lt, (lex_compare_antisym xs ys).
  destruct (lex_compare xs ys); simpl; split; congruence.
Qed.

Lemma lex_compare_refl (xs : list Char) : lex_compare xs xs = Eq.
Proof. now apply lex_compare_eq. Qed.

(* ================================================================== *)
(** * The member functions on a view whose [c_str()] is a valid sequence *)

Lemma c_str_present (C : char_type) (b : block) (ofs : N) :
  c_str (from_pointer C (Ptr b ofs)) = Ptr b ofs.
Proof. reflexivity. Qed.

Lemma c_str_absent_supported (C : char_type) :
  supported C = true -> c_str (default_constructed C) = Ptr (StrLit C) 0.
Proof. destruct C; simpl; intros H; try reflexivity; discriminate. Qed.

Lemma c_str_absent_unsupported (C : char_type) :
  supported C = false -> c_str (default_constructed C) = nullptr.
Proof. destruct C; simpl; intros H; try reflexivity; discriminate. Qed.

Lemma cstr_at_literal (m : memory) (C : char_type) :
  cstr_at m (Ptr (StrLit C) 0) [].
Proof. reflexivity. Qed.

(** A view that stands for [cs] materializes a raw reference to [cs],
    provided its character type is supported when the reference is
    absent. *)
Lemma c_str_denotes (m : memory) (C : char_type) (v : basic_safe_string C)
  (cs : list Char) :
  denotes m v cs ->
  (is_null v = true -> supported C = true) ->
  cstr_at m (c_str v) cs.
Proof.
  intros [|b ofs ds H] Hs.
  - rewrite c_str_absent_supported by (apply Hs; reflexivity).
    apply cstr_at_literal.
  - exact H.
Qed.

Section ValidViews.
Context {L : std_library} {C : char_type} (m : memory).
Context (a b : basic_safe_string C) (ca cb : list Char).
Hypothesis (Ha : cstr_at m (c_str a) ca) (Hb : cstr_at m (c_str b) cb).
Context (fuel : nat).
Hypothesis (Hfa : (List.length ca < fuel)%nat).
Hypothesis (Hfb : (List.length cb < fuel)%nat).

Lemma string_cstr : string fuel m a = Done ca.
Proof. unfold string. now apply basic_string_from_cstr. Qed.

Lemma view_cstr :
  view fuel m a =
  Done {| sv_data := c_str a; sv_size := N.of_nat (List.length ca) |}.
Proof. unfold view. now apply basic_string_view_from_cstr. Qed.

Lemma length_cstr : length fuel m a = Done (N.of_nat (List.length ca)).
Proof.
  unfold length.
  rewrite (length_loop_cstr m (c_str a) ca) by (rewrite ?ptr_add_0; auto).
  reflexivity.
Qed.

(** Both operands materialize their [view()], then the library compares
    the two views. *)
Ltac materialize_views :=
  unfold view;
  rewrite (basic_string_view_from_cstr m (c_str a) ca fuel Ha Hfa);
  rewrite (basic_string_view_from_cstr m (c_str b) cb fuel Hb Hfb);
  cbn [bind];
  unfold sv_spaceship, sv_equal;
  rewrite ?(sv_compare_cstr m (c_str a) (c_str b) ca cb Ha Hb);
  cbn [bind].

Lemma compare_views_cstr :
  compare_views fuel m a b = Done (compare_result ca cb).
Proof. unfold compare_views. materialize_views. reflexivity. Qed.

Lemma operator_spaceship_cstr :
  operator_spaceship fuel m a b = Done (lex_compare ca cb).
Proof.
  unfold operator_spaceship. materialize_views.
  now rewrite compare_result_sign.
Qed.

Lemma operator_eq_cstr :
  operator_eq fuel m a b = Done (is_eq (lex_compare ca cb)).
Proof.
  unfold operator_eq. materialize_views.
  rewrite (proj1 (sign_tests _)). now rewrite compare_result_sign.
Qed.

(** Both builds give the same six relational expressions, each the
    corresponding test on the lexicographic comparison of the contents. *)
Lemma expr_eq_cstr (tw : bool) :
  expr_eq tw fuel m a b = Done (is_eq (lex_compare ca cb)).
Proof.
  destruct tw; simpl.
  - now rewrite operator_spaceship_cstr.
  - apply operator_eq_cstr.
Qed.

Lemma expr_ne_cstr (tw : bool) :
  expr_ne tw fuel m a b = Done (negb (is_eq (lex_compare ca cb))).
Proof.
  destruct tw; simpl.
  - now rewrite operator_spaceship_cstr.
  - unfold operator_ne. now rewrite operator_eq_cstr.
Qed.

Lemma expr_lt_cstr (tw : bool) :
  expr_lt tw fuel m a b = Done (is_lt (lex_compare ca cb)).
Proof.
  destruct tw; simpl.
  - now rewrite operator_spaceship_cstr.
  - unfold operator_lt. rewrite compare_views_cstr. cbn [bind].
    rewrite (proj1 (proj2 (sign_tests _))).
    now rewrite compare_result_sign.
Qed.

Lemma expr_le_cstr (tw : bool) :
  expr_le tw fuel m a b = Done (negb (is_gt (lex_compare ca cb))).
Proof.
  destruct tw; simpl.
  - now rewrite operator_spaceship_cstr.
  - unfold operator_le. rewrite compare_views_cstr. cbn [bind].
    rewrite (proj1 (proj2 (proj2 (sign_tests _)))).
    now rewrite compare_result_sign.
Qed.

Lemma expr_gt_cstr (tw : bool) :
  expr_gt tw fuel m a b = Done (is_gt (lex_compare ca cb)).
Proof.
  destruct tw; simpl.
  - now rewrite operator_spaceship_cstr.
  - unfold operator_gt. rewrite compare_views_cstr. cbn [bind].
    rewrite (proj1 (proj2 (proj2 (proj2 (sign_tests _))))).
    now rewrite compare_result_sign.
Qed.

Lemma expr_ge_cstr (tw : bool) :
  expr_ge tw fuel m a b = Done (negb (is_lt (lex_compare ca cb))).
Proof.
  destruct tw; simpl.
  - now rewrite operator_spaceship_cstr.
  - unfold operator_ge. rewrite compare_views_cstr. cbn [bind].
    rewrite (proj2 (proj2 (proj2 (proj2 (sign_tests _))))).
    now rewrite compare_result_sign.
Qed.

Lemma expr_cstr (op : relop) (tw : bool) :
  expr op tw fuel m a b = Done (holds op (lex_compare ca cb)).
Proof.
  destruct op; cbn [expr holds].
  - apply expr_eq_cstr.
  - apply expr_ne_cstr.
  - apply expr_lt_cstr.
  - apply expr_le_cstr.
  - apply expr_gt_cstr.
  - apply expr_ge_cstr.
Qed.

End ValidViews.

(* ================================================================== *)
(** * Properties of sentinel_result *)

(** C1. [is_ok()] is the configured predicate applied to the held value and
    the configured sentinel, for every configuration and value.  With
    sentinel [0] and [std::equal_to]: wrapping [0] is ok, wrapping [5] is
    not and [value()] is [5]; in general a value is ok exactly when it is
    [0].  With sentinel [0] and [std::not_equal_to]: wrapping [0] is not
    ok, wrapping [5] is; in general a value is ok exactly when it is not
    [0]. *)
Theorem is_ok_applies_predicate :
  (forall (T : Type) (sentinel : T) (SuccessComp : T -> T -> bool) (v : T),
      is_ok (Build_sentinel_result sentinel SuccessComp v)
      = SuccessComp v sentinel) /\
  is_ok (Build_sentinel_result (0%Z : int) equal_to 0%Z) = true /\
  is_ok (Build_sentinel_result (0%Z : int) equal_to 5%Z) = false /\
  value (Build_sentinel_result (0%Z : int) equal_to 5%Z) = 5%Z /\
  is_ok (Build_sentinel_result (0%Z : int) not_equal_to 0%Z) = false /\
  is_ok (Build_sentinel_result (0%Z : int) not_equal_to 5%Z) = true /\
  (forall v : int,
      (is_ok (Build_sentinel_result (0%Z : int) equal_to v) = true
       <-> v = 0%Z) /\
      (is_ok (Build_sentinel_result (0%Z : int) not_equal_to v) = true
       <-> v <> 0%Z)).
Proof.
  repeat split; try reflexivity.
  - unfold is_ok, equal_to; simpl. apply Z.eqb_eq.
  - unfold is_ok, equal_to; simpl. apply Z.eqb_eq.
  - unfold is_ok, not_equal_to; simpl. intros H.
    apply negb_true_iff, Z.eqb_neq in H. exact H.
  - unfold is_ok, not_equal_to; simpl. intros H.
    apply negb_true_iff, Z.eqb_neq. exact H.
Qed.

(** C7. [has_error()] is the logical negation of [is_ok()], for every
    element type, sentinel, predicate and wrapped value. *)
Theorem has_error_negates_is_ok :
  forall (T : Type) (sentinel : T) (SuccessComp : T -> T -> bool)
         (r : sentinel_result T sentinel SuccessComp),
    has_error r = negb (is_ok r).
Proof. intros T sentinel SuccessComp r. reflexivity. Qed.

(** C8. [sentinel_result<T>], with no sentinel and no predicate given, has
    sentinel [static_cast<T>(0)] and predicate [std::equal_to<T>]: a
    wrapper is ok exactly when its value is that zero.  For [int] the zero
    is [0]. *)
Theorem default_configuration_is_zero_equality :
  forall (T : Type) (E : Element T) (L : ElementLaws T) (v : T),
    is_ok (Build_default T v) = op_equal v static_cast_0 /\
    (is_ok (Build_default T v) = true <-> v = static_cast_0) /\
    (has_error (Build_default T v) = true <-> v <> static_cast_0) /\
    (static_cast_0 : int) = 0%Z.
Proof.
  intros T E L v. unfold has_error, is_ok, Build_default, equal_to; simpl.
  repeat split.
  - apply op_equal_spec.
  - apply op_equal_spec.
  - intros H Hv. apply op_equal_spec in Hv.
    rewrite Hv in H. discriminate.
  - intros H. apply negb_true_iff.
    destruct (op_equal v static_cast_0) eqn:Heq; [|reflexivity].
    apply op_equal_spec in Heq. contradiction.
Qed.

Lemma default_configuration_witness :
  (is_ok (Build_default int 0%Z) = true <-> (0%Z : int) = static_cast_0) /\
  (is_ok (Build_default pointer (buffer 0)) = true
   <-> buffer 0 = static_cast_0).
Proof.
  split.
  - exact (proj1 (proj2 (default_configuration_is_zero_equality
                           int Element_int ElementLaws_int 0%Z))).
  - exact (proj1 (proj2 (default_configuration_is_zero_equality
                           pointer Element_pointer ElementLaws_pointer
                           (buffer 0)))).
Defined.

(* ================================================================== *)
(** * Properties of basic_safe_string *)

Lemma example_abc : cstr_at example_memory (buffer 0) [97; 98; 99]%Z.
Proof. simpl. repeat split; discriminate. Qed.

Lemma example_abd : cstr_at example_memory (buffer 1) [97; 98; 100]%Z.
Proof. simpl. repeat split; discriminate. Qed.

Lemma example_abc_copy : cstr_at example_memory (buffer 2) [97; 98; 99]%Z.
Proof. simpl. repeat split; discriminate. Qed.

Lemma example_empty : cstr_at example_memory (buffer 3) [].
Proof. reflexivity. Qed.

Lemma example_a_later : cstr_at example_memory_later (buffer 0) [97]%Z.
Proof. simpl. repeat split; discriminate. Qed.

(** C4. For a view constructed from a pointer to a valid null-terminated
    buffer, whatever the character type: [string()] is the characters of
    the buffer up to the first terminator, and [view()] is the same
    pointer with the number of those characters as its length, which is
    also what the scan of [length()] returns.  One unit of fuel per
    character and one for the terminator suffice.  ([cstr_at_block]: a
    buffer holding [cs], a terminator and anything after it is such a
    buffer.) *)
Theorem string_and_view_of_valid_buffer :
  forall (C : char_type) (m : memory) (b : block) (ofs : N)
         (cs : list Char) (fuel : nat),
    cstr_at m (Ptr b ofs) cs ->
    (List.length cs < fuel)%nat ->
    string fuel m (from_pointer C (Ptr b ofs)) = Done cs /\
    view fuel m (from_pointer C (Ptr b ofs)) =
      Done {| sv_data := Ptr b ofs;
              sv_size := N.of_nat (List.length cs) |} /\
    length fuel m (from_pointer C (Ptr b ofs)) =
      Done (N.of_nat (List.length cs)).
Proof.
  intros C m b ofs cs fuel H Hf. split; [|split].
  - now apply string_cstr.
  - now rewrite (view_cstr m (from_pointer C (Ptr b ofs)) cs).
  - now apply length_cstr.
Qed.

Lemma string_and_view_of_valid_buffer_witness :
  string 4 example_memory (from_pointer char (buffer 0))
    = Done [97; 98; 99]%Z /\
  view 4 example_memory (from_pointer char (buffer 0))
    = Done {| sv_data := buffer 0; sv_size := 3 |} /\
  length 4 example_memory (from_pointer char (buffer 0)) = Done 3%N.
Proof.
  apply (string_and_view_of_valid_buffer char example_memory (Ext 0) 0
           [97; 98; 99]%Z 4).
  - apply (cstr_at_buffer example_memory 0 [97; 98; 99]%Z []).
    + reflexivity.
    + repeat constructor; discriminate.
  - simpl. lia.
Defined.

(** C2, counterexample.  With a character type other than the five the
    header knows, a default-constructed view has [c_str() == nullptr]:
    [view()] and every comparison dereference that null pointer, and
    [string()], handed the null pointer, returns no copy, whatever the
    fuel. *)
Lemma read_operations_fault_on_unsupported_absent :
  c_str (default_constructed (other_char 0)) = nullptr /\
  view 1 empty_memory (default_constructed (other_char 0))
    = Fault NullDeref /\
  expr (L := difference_library) EQ false 1 empty_memory
       (default_constructed (other_char 0))
       (default_constructed (other_char 0)) = Fault NullDeref /\
  expr (L := difference_library) LT true 1 empty_memory
       (default_constructed (other_char 0))
       (default_constructed (other_char 0)) = Fault NullDeref /\
  ~ (exists fuel x,
        view fuel empty_memory (default_constructed (other_char 0))
        = Done x) /\
  ~ (exists fuel s,
        string fuel empty_memory (default_constructed (other_char 0))
        = Done s).
Proof.
  repeat split; try reflexivity.
  - intros (fuel & x & H). destruct fuel; discriminate.
  - intros (fuel & s & H). destruct fuel; discriminate.
Qed.

(** C2, amended.  For every character type and every view that is absent
    or refers to a valid null-terminated buffer, provided the character
    type is one of the five supported ones when the reference is absent:
    [c_str()] is not null; [view()], [operator<=>] and the six relational
    expressions (in either build, with any library) return a result; and
    [string()] makes no invalid read, of a null pointer or of anything
    else.  ([is_null], [operator bool], [c_str] and [begin] read no memory
    at all: they are total functions of the view.)  Whether [string()]
    can allocate its copy is not stated, nor anything about [end()] and
    iteration. *)
Theorem read_operations_complete :
  forall (L : std_library) (C : char_type) (m : memory)
         (a b : basic_safe_string C)
         (ca cb : list Char) (fuel : nat) (three_way : bool),
    denotes m a ca -> denotes m b cb ->
    (is_null a = true -> supported C = true) ->
    (is_null b = true -> supported C = true) ->
    (List.length ca < fuel)%nat -> (List.length cb < fuel)%nat ->
    c_str a <> nullptr /\
    begin a <> nullptr /\
    view fuel m a = Done {| sv_data := c_str a;
                            sv_size := N.of_nat (List.length ca) |} /\
    (forall f, string fuel m a <> Fault f) /\
    (exists o, operator_spaceship fuel m a b = Done o) /\
    (forall op, exists r, expr op three_way fuel m a b = Done r).
Proof.
  intros L C m a b ca cb fuel tw Da Db Sa Sb Hfa Hfb.
  pose proof (c_str_denotes m C a ca Da Sa) as Ha.
  pose proof (c_str_denotes m C b cb Db Sb) as Hb.
  split; [exact (cstr_at_not_null _ _ _ Ha)|].
  split; [exact (cstr_at_not_null _ _ _ Ha)|].
  split; [now apply view_cstr|].
  split; [intros f; rewrite (string_cstr m a ca Ha fuel Hfa); discriminate|].
  split; [eexists; now apply (operator_spaceship_cstr m a b ca cb)|].
  intros op. eexists. now apply (expr_cstr m a b ca cb).
Qed.

Lemma read_operations_complete_witness :
  view 4 example_memory (default_constructed wchar_t)
    = Done {| sv_data := c_str (default_constructed wchar_t);
              sv_size := 0 |} /\
  exists r,
    expr (L := difference_library) LT true 4 example_memory
         (default_constructed wchar_t)
         (from_pointer wchar_t (buffer 1)) = Done r.
Proof.
  pose proof (read_operations_complete difference_library wchar_t
                example_memory
                (default_constructed wchar_t)
                (from_pointer wchar_t (buffer 1))
                [] [97; 98; 100]%Z 4 true
                (denotes_absent example_memory)
                (denotes_buffer example_memory (Ext 1) 0 [97; 98; 100]%Z
                                example_abd)
                (fun _ => eq_refl)
                (fun _ => eq_refl)
                ltac:(simpl; lia) ltac:(simpl; lia)) as H.
  destruct H as (_ & _ & Hv & _ & _ & Hop).
  exact (conj Hv (Hop LT)).
Defined.

(** C3, counterexample.  For a character type outside the five, the owned
    copy of a default-constructed view is not the empty string:
    [c_str()] is the null pointer, and [string()], handed it, returns no
    copy at all. *)
Lemma default_constructed_unsupported_faults :
  is_null (default_constructed (other_char 0)) = true /\
  c_str (default_constructed (other_char 0)) = nullptr /\
  string 1 example_memory (default_constructed (other_char 0))
    <> Done [] /\
  ~ (exists fuel,
        string fuel example_memory (default_constructed (other_char 0))
        = Done []) /\
  ~ (exists fuel cs,
        string fuel example_memory (default_constructed (other_char 0))
        = Done cs).
Proof.
  repeat split; try reflexivity.
  - discriminate.
  - intros (fuel & H). destruct fuel; discriminate.
  - intros (fuel & cs & H). destruct fuel; discriminate.
Qed.

(** C3, amended.  For a default-constructed view of any character type,
    [is_null()] is true and the boolean conversion is false.  For the
    supported character types (char, wchar_t, char8_t, char16_t,
    char32_t), [c_str()] is the non-null pointer to the static empty
    literal of that type, and the owned copy is the empty string.  For
    any other character type [c_str()] is the null pointer.  Nothing is
    stated about iteration. *)
Theorem default_constructed_view :
  forall (C : char_type) (m : memory) (fuel : nat),
    (0 < fuel)%nat ->
    is_null (default_constructed C) = true /\
    operator_bool (default_constructed C) = false /\
    (supported C = true <->
       In C [char; wchar_t; char8_t; char16_t; char32_t]) /\
    (supported C = true ->
       c_str (default_constructed C) = Ptr (StrLit C) 0 /\
       c_str (default_constructed C) <> nullptr /\
       cstr_at m (c_str (default_constructed C)) [] /\
       string fuel m (default_constructed C) = Done []) /\
    (supported C = false -> c_str (default_constructed C) = nullptr).
Proof.
  intros C m fuel Hf.
  split; [reflexivity|]. split; [reflexivity|].
  split.
  { destruct C; simpl; split; intros H; try reflexivity; try discriminate;
      try tauto.
    repeat (destruct H as [H|H]; [discriminate|]). contradiction. }
  split; [|apply c_str_absent_unsupported].
  intros Hs.
  assert (Hc : cstr_at m (c_str (default_constructed C)) []).
  { rewrite c_str_absent_supported by assumption. apply cstr_at_literal. }
  split; [now apply c_str_absent_supported|].
  split; [exact (cstr_at_not_null _ _ _ Hc)|].
  split; [exact Hc|].
  now apply string_cstr.
Qed.

Lemma default_constructed_view_witness :
  is_null (default_constructed char16_t) = true /\
  operator_bool (default_constructed char16_t) = false /\
  string 1 example_memory (default_constructed char16_t) = Done [].
Proof.
  pose proof (default_constructed_view char16_t example_memory 1
                ltac:(lia)) as H.
  destruct H as (Hn & Hb & _ & Hs & _).
  destruct (Hs eq_refl) as (_ & _ & _ & Hstr).
  exact (conj Hn (conj Hb Hstr)).
Defined.

(** C5, counterexample.  For a character type outside the five, an absent
    view does not compare as the empty string: compared with a view of an
    empty buffer, every comparison dereferences the null pointer, in both
    builds. *)
Lemma absent_unsupported_does_not_compare :
  cstr_at example_memory (buffer 3) [] /\
  operator_spaceship (L := difference_library) 1 example_memory
    (default_constructed (other_char 0))
    (from_pointer (other_char 0) (buffer 3)) = Fault NullDeref /\
  expr (L := difference_library) EQ true 1 example_memory
    (default_constructed (other_char 0))
    (from_pointer (other_char 0) (buffer 3)) = Fault NullDeref /\
  expr (L := difference_library) EQ false 1 example_memory
    (default_constructed (other_char 0))
    (from_pointer (other_char 0) (buffer 3)) = Fault NullDeref /\
  ~ (exists (L : std_library) (fuel : nat),
        expr EQ false fuel example_memory
          (default_constructed (other_char 0))
          (from_pointer (other_char 0) (buffer 3)) = Done true).
Proof.
  repeat split; try reflexivity.
  intros (L & fuel & H). destruct fuel; discriminate.
Qed.

(** C5, amended.  Two views compare by the character sequences they stand
    for, an absent view of a supported character type standing for the
    empty sequence: [operator<=>] returns the lexicographic ordering of the
    two sequences, and each of the six relational expressions, in either
    build, returns what that ordering says.  In particular the result does
    not depend on the pointers: views of equal content compare equal
    wherever their buffers are, and [a < b] holds exactly when the content
    of [a] is lexicographically less than that of [b]. *)
Theorem comparison_is_lexicographic :
  forall (L : std_library) (C : char_type) (m : memory)
         (a b : basic_safe_string C)
         (ca cb : list Char) (fuel : nat) (three_way : bool),
    denotes m a ca -> denotes m b cb ->
    (is_null a = true -> supported C = true) ->
    (is_null b = true -> supported C = true) ->
    (List.length ca < fuel)%nat -> (List.length cb < fuel)%nat ->
    operator_spaceship fuel m a b = Done (lex_compare ca cb) /\
    (forall op,
        expr op three_way fuel m a b = Done (holds op (lex_compare ca cb))) /\
    (expr EQ three_way fuel m a b = Done true <-> ca = cb) /\
    (expr LT three_way fuel m a b = Done true <-> lex_lt ca cb) /\
    (expr GT three_way fuel m a b = Done true <-> lex_lt cb ca) /\
    (is_null a = true ->
       operator_spaceship fuel m a b = Done (lex_compare [] cb)).
Proof.
  intros L C m a b ca cb fuel tw Da Db Sa Sb Hfa Hfb.
  pose proof (c_str_denotes m C a ca Da Sa) as Ha.
  pose proof (c_str_denotes m C b cb Db Sb) as Hb.
  pose proof (operator_spaceship_cstr m a b ca cb Ha Hb fuel Hfa Hfb) as Hs.
  pose proof (fun op => expr_cstr m a b ca cb Ha Hb fuel Hfa Hfb op tw) as He.
  split; [exact Hs|]. split; [exact He|].
  split; [|split; [|split]].
  - rewrite He. cbn [holds]. rewrite <- lex_compare_eq.
    destruct (lex_compare ca cb); simpl; split; congruence.
  - rewrite He. cbn [holds]. rewrite <- lex_compare_lt.
    destruct (lex_compare ca cb); simpl; split; congruence.
  - rewrite He. cbn [holds]. rewrite <- lex_compare_gt.
    destruct (lex_compare ca cb); simpl; split; congruence.
  - intros Hn. rewrite Hs. destruct Da as [|? ? ? ?]; [reflexivity|].
    discriminate.
Qed.

Lemma comparison_is_lexicographic_witness :
  (* "abc" < "abd" *)
  expr (L := difference_library) LT false 4 example_memory
       (from_pointer char (buffer 0))
       (from_pointer char (buffer 1)) = Done true /\
  (* "abc" at two addresses *)
  expr (L := difference_library) EQ true 4 example_memory
       (from_pointer char (buffer 0))
       (from_pointer char (buffer 2)) = Done true /\
  (* an absent view against "abd" *)
  operator_spaceship (L := difference_library) 4 example_memory
       (default_constructed char)
       (from_pointer char (buffer 1)) = Done Lt.
Proof.
  split; [|split].
  - exact (proj1 (proj2
      (comparison_is_lexicographic difference_library char example_memory
         (from_pointer char (buffer 0)) (from_pointer char (buffer 1))
         [97; 98; 99]%Z [97; 98; 100]%Z 4 false
         (denotes_buffer example_memory (Ext 0) 0 _ example_abc)
         (denotes_buffer example_memory (Ext 1) 0 _ example_abd)
         (fun H => eq_refl) (fun H => eq_refl)
         ltac:(simpl; lia) ltac:(simpl; lia))) LT).
  - exact (proj1 (proj2
      (comparison_is_lexicographic difference_library char example_memory
         (from_pointer char (buffer 0)) (from_pointer char (buffer 2))
         [97; 98; 99]%Z [97; 98; 99]%Z 4 true
         (denotes_buffer example_memory (Ext 0) 0 _ example_abc)
         (denotes_buffer example_memory (Ext 2) 0 _ example_abc_copy)
         (fun H => eq_refl) (fun H => eq_refl)
         ltac:(simpl; lia) ltac:(simpl; lia))) EQ).
  - exact (proj1
      (comparison_is_lexicographic difference_library char example_memory
         (default_constructed char) (from_pointer char (buffer 1))
         [] [97; 98; 100]%Z 4 true
         (denotes_absent example_memory)
         (denotes_buffer example_memory (Ext 1) 0 _ example_abd)
         (fun H => eq_refl) (fun H => eq_refl)
         ltac:(simpl; lia) ltac:(simpl; lia))).
Defined.

(** C6.  Iteration is not provided by the header as written: [end()] is
    a [const] member and calls the private [length()], which is declared
    without [const], so every use of [end()], of [cend()] and of a
    range-based [for] over a view is ill-formed, for every character type
    and every view.  Over the buffer "abc", where the claim has iteration
    yield 'a', 'b', 'c', it yields nothing; [begin()] and the scan that
    [end()] was written to use are in order ([length()] finds 3). *)
Theorem iteration_does_not_compile :
  may_call end_cv length_cv = false /\
  (forall (C : char_type) (fuel : nat) (m : memory)
          (v : basic_safe_string C),
      end_ fuel m v = IllFormed /\
      cend fuel m v = IllFormed /\
      iterate fuel m v = IllFormed) /\
  iterate 4 example_memory (from_pointer char (buffer 0)) = IllFormed /\
  iterate 4 example_memory (from_pointer char (buffer 0))
    <> Compiles (Done [97; 98; 99]%Z) /\
  begin (from_pointer char (buffer 0)) = buffer 0 /\
  length 4 example_memory (from_pointer char (buffer 0)) = Done 3%N.
Proof.
  repeat split; try reflexivity. discriminate.
Qed.




(** C10, counterexample.  For a character type outside the five and two
    absent views, none of [a < b], [a == b], [a > b] holds (each faults),
    in either build; equality is not reflexive there. *)
Lemma absent_unsupported_has_no_order :
  (forall (L : std_library) op three_way,
      expr op three_way 1 empty_memory
           (default_constructed (other_char 0))
           (default_constructed (other_char 0)) = Fault NullDeref) /\
  ~ (exists (L : std_library) fuel three_way,
        expr LT three_way fuel empty_memory
             (default_constructed (other_char 0))
             (default_constructed (other_char 0)) = Done true \/
        expr EQ three_way fuel empty_memory
             (default_constructed (other_char 0))
             (default_constructed (other_char 0)) = Done true \/
        expr GT three_way fuel empty_memory
             (default_constructed (other_char 0))
             (default_constructed (other_char 0)) = Done true).
Proof.
  split.
  - intros L [] []; reflexivity.
  - intros (L & fuel & tw & H).
    destruct fuel, tw; destruct H as [H|[H|H]]; discriminate.
Qed.

(** C10, amended.  For views over valid buffers of any character type, or
    absent views of a supported character type, the relational expressions
    (in either build) form a consistent total order: each returns a
    result; exactly one of [a < b], [a == b], [a > b] holds; [a <= b] is
    the negation of [a > b], [a >= b] of [a < b], [a != b] of [a == b];
    and equality is reflexive, symmetric and transitive. *)
Theorem comparisons_form_total_order :
  forall (L : std_library) (C : char_type) (m : memory)
         (a b c : basic_safe_string C)
         (ca cb cc : list Char) (fuel : nat) (three_way : bool),
    denotes m a ca -> denotes m b cb -> denotes m c cc ->
    (is_null a = true \/ is_null b = true \/ is_null c = true ->
     supported C = true) ->
    (List.length ca < fuel)%nat -> (List.length cb < fuel)%nat ->
    (List.length cc < fuel)%nat ->
    (exists lt eq gt : bool,
        expr LT three_way fuel m a b = Done lt /\
        expr EQ three_way fuel m a b = Done eq /\
        expr GT three_way fuel m a b = Done gt /\
        ((lt = true /\ eq = false /\ gt = false) \/
         (lt = false /\ eq = true /\ gt = false) \/
         (lt = false /\ eq = false /\ gt = true)) /\
        expr LE three_way fuel m a b = Done (negb gt) /\
        expr GE three_way fuel m a b = Done (negb lt) /\
        expr NE three_way fuel m a b = Done (negb eq)) /\
    expr EQ three_way fuel m a a = Done true /\
    expr EQ three_way fuel m a b = expr EQ three_way fuel m b a /\
    (expr EQ three_way fuel m a b = Done true ->
     expr EQ three_way fuel m b c = Done true ->
     expr EQ three_way fuel m a c = Done true).
Proof.
  intros L C m a b c ca cb cc fuel tw Da Db Dc Hs Hfa Hfb Hfc.
  assert (Ha : cstr_at m (c_str a) ca) by (apply c_str_denotes; auto).
  assert (Hb : cstr_at m (c_str b) cb) by (apply c_str_denotes; auto).
  assert (Hc : cstr_at m (c_str c) cc) by (apply c_str_denotes; auto).
  pose proof (fun op => expr_cstr m a b ca cb Ha Hb fuel Hfa Hfb op tw) as Eab.
  pose proof (fun op => expr_cstr m b a cb ca Hb Ha fuel Hfb Hfa op tw) as Eba.
  pose proof (fun op => expr_cstr m a a ca ca Ha Ha fuel Hfa Hfa op tw) as Eaa.
  pose proof (fun op => expr_cstr m b c cb cc Hb Hc fuel Hfb Hfc op tw) as Ebc.
  pose proof (fun op => expr_cstr m a c ca cc Ha Hc fuel Hfa Hfc op tw) as Eac.
  split; [|split; [|split]].
  - exists (holds LT (lex_compare ca cb)), (holds EQ (lex_compare ca cb)),
      (holds GT (lex_compare ca cb)).
    rewrite !Eab. cbn [holds].
    destruct (lex_compare ca cb); simpl; repeat split; auto.
  - rewrite Eaa. cbn [holds]. now rewrite lex_compare_refl.
  - rewrite Eab, Eba. cbn [holds]. rewrite (lex_compare_antisym ca cb).
    now destruct (lex_compare ca cb).
  - rewrite Eab, Ebc, Eac. cbn [holds]. intros H1 H2.
    assert (lex_compare ca cb = Eq) as E1
        by (destruct (lex_compare ca cb); simpl in H1; congruence).
    assert (lex_compare cb cc = Eq) as E2
        by (destruct (lex_compare cb cc); simpl in H2; congruence).
    apply lex_compare_eq in E1, E2. subst. now rewrite lex_compare_refl.
Qed.

Lemma comparisons_form_total_order_witness :
  expr (L := difference_library) EQ false 4 example_memory
       (from_pointer char (buffer 0))
       (from_pointer char (buffer 0)) = Done true /\
  expr (L := difference_library) EQ false 4 example_memory
       (from_pointer char (buffer 0))
       (from_pointer char (buffer 1))
  = expr (L := difference_library) EQ false 4 example_memory
       (from_pointer char (buffer 1))
       (from_pointer char (buffer 0)).
Proof.
  pose proof (comparisons_form_total_order difference_library char
                example_memory
                (from_pointer char (buffer 0))
                (from_pointer char (buffer 1))
                (default_constructed char)
                [97; 98; 99]%Z [97; 98; 100]%Z [] 4 false
                (denotes_buffer example_memory (Ext 0) 0 _ example_abc)
                (denotes_buffer example_memory (Ext 1) 0 _ example_abd)
                (denotes_absent example_memory)
                (fun H => eq_refl)
                ltac:(simpl; lia) ltac:(simpl; lia) ltac:(simpl; lia))
    as H.
  destruct H as (_ & Hr & Hsym & _).
  exact (conj Hr Hsym).
Defined.

(* ================================================================== *)
(** * What the scans return, on any memory *)

(** The private scan and [traits::length] are the same loop. *)
Lemma traits_length_is_length_loop (fuel : nat) (m : memory) (s : pointer) :
  forall i, traits_length fuel m s i = length_loop fuel m s i.
Proof.
  induction fuel as [|fuel IH]; intros i; simpl; [reflexivity|].
  destruct (load m (ptr_add s i)) as [c| |]; simpl; try reflexivity.
  destruct (Z.eqb c Char_zero); simpl; auto.
Qed.

(** A scan that returns has passed only non-zero characters and stopped on
    the terminator. *)
Lemma length_loop_sound (m : memory) (s : pointer) (fuel : nat) :
  forall (len n : N),
    length_loop fuel m s len = Done n ->
    exists cs,
      cstr_at m (ptr_add s len) cs /\
      n = (len + N.of_nat (List.length cs))%N /\
      (List.length cs < fuel)%nat.
Proof.
  induction fuel as [|fuel IH]; intros len n H; simpl in H; [discriminate|].
  destruct (load m (ptr_add s len)) as [c| |] eqn:Hl; simpl in H;
    try discriminate.
  destruct (Z.eqb_spec c Char_zero) as [->|Hc]; simpl in H.
  - injection H as <-. exists []. simpl. repeat split; [exact Hl | lia | lia].
  - apply IH in H. destruct H as (cs & Hcs & -> & Hlen).
    exists (c :: cs). simpl. rewrite ptr_add_add. repeat split; auto; lia.
Qed.

Lemma view_sound (C : char_type) (m : memory) (v : basic_safe_string C)
  (fuel : nat) (x : basic_string_view) :
  view fuel m v = Done x ->
  exists cs,
    cstr_at m (c_str v) cs /\ (List.length cs < fuel)%nat /\
    x = {| sv_data := c_str v; sv_size := N.of_nat (List.length cs) |}.
Proof.
  unfold view, basic_string_view_from. rewrite traits_length_is_length_loop.
  destruct (length_loop fuel m (c_str v) 0) as [n| |] eqn:Hn; simpl;
    try discriminate.
  intros H. injection H as <-.
  apply length_loop_sound in Hn. destruct Hn as (cs & Hcs & -> & Hlen).
  rewrite ptr_add_0 in Hcs. exists cs. auto.
Qed.

Lemma length_done_iff (C : char_type) (m : memory)
  (v : basic_safe_string C) (fuel : nat) (k : N) :
  length fuel m v = Done k <->
  exists cs, cstr_at m (c_str v) cs /\
             k = N.of_nat (List.length cs) /\
             (List.length cs < fuel)%nat.
Proof.
  split.
  - unfold length. intros H. apply length_loop_sound in H.
    destruct H as (cs & Hcs & -> & Hf). rewrite ptr_add_0 in Hcs.
    exists cs. auto.
  - intros (cs & Hcs & -> & Hf). now apply length_cstr.
Qed.

(** X1. The scan of [length()] returns [n] exactly when the [n]
    characters at [c_str()] are all non-zero and the next one is the
    terminator: it stops neither early nor late, and returns nothing on a
    memory with no such sequence. *)
Theorem length_returns_first_terminator :
  forall (C : char_type) (m : memory) (v : basic_safe_string C)
         (fuel : nat) (n : N),
    length fuel m v = Done n <->
    exists cs, cstr_at m (c_str v) cs /\
               n = N.of_nat (List.length cs) /\
               (List.length cs < fuel)%nat.
Proof.
  intros C m v fuel n. apply length_done_iff.
Qed.

Lemma string_sound (C : char_type) (m : memory) (v : basic_safe_string C)
  (fuel : nat) (cs : list Char) :
  string fuel m v = Done cs ->
  cstr_at m (c_str v) cs /\ (List.length cs < fuel)%nat.
Proof.
  unfold string, basic_string_from.
  rewrite traits_length_is_length_loop.
  destruct (length_loop fuel m (c_str v) 0) as [n| |] eqn:Hn; simpl;
    try discriminate.
  apply length_loop_sound in Hn. destruct Hn as (ds & Hds & -> & Hf).
  rewrite ptr_add_0 in Hds. rewrite N.add_0_l, Nat2N.id.
  rewrite (read_chars_cstr m ds (c_str v) Hds).
  intros H. injection H as <-. auto.
Qed.

(** X2. [string()] (and the implicit conversion to [std::basic_string])
    returns [cs] exactly when [c_str()] points to the characters [cs], none
    of them [Char{}], followed by the terminator: the copy holds every
    character before the first terminator and nothing else. *)
Theorem string_returns_exactly_the_sequence :
  forall (C : char_type) (m : memory) (v : basic_safe_string C)
         (fuel : nat) (cs : list Char),
    (string fuel m v = Done cs <->
     cstr_at m (c_str v) cs /\ (List.length cs < fuel)%nat) /\
    (operator_basic_string fuel m v = Done cs <->
     cstr_at m (c_str v) cs /\ (List.length cs < fuel)%nat) /\
    (string fuel m v = Done cs ->
     Forall (fun c => c <> Char_zero) cs /\
     load m (ptr_add (c_str v) (N.of_nat (List.length cs))) = Done Char_zero).
Proof.
  intros C m v fuel cs.
  assert (Hs : string fuel m v = Done cs <->
               cstr_at m (c_str v) cs /\ (List.length cs < fuel)%nat).
  { split; [apply string_sound|].
    intros (Hcs & Hf). now apply string_cstr. }
  split; [exact Hs|]. split; [exact Hs|].
  intros H. apply Hs in H. destruct H as (Hcs & _).
  split; [exact (cstr_at_nonzero m cs (c_str v) Hcs)|].
  clear Hs. revert Hcs. generalize (c_str v).
  induction cs as [|c cs IH]; intros p Hp; simpl in *.
  - now rewrite ptr_add_0.
  - destruct Hp as (_ & _ & Hp). apply IH in Hp.
    rewrite ptr_add_add in Hp.
    replace (N.pos (Pos.of_succ_nat (List.length cs)))
      with (1 + N.of_nat (List.length cs))%N by lia.
    exact Hp.
Qed.

(** X4. The length of [view()] is the length the private [length()] finds,
    on every view, memory and fuel, faults included; and the data pointer
    of a returned view is [c_str()]. *)
Theorem view_size_is_length :
  forall (C : char_type) (m : memory) (v : basic_safe_string C)
         (fuel : nat),
    length fuel m v = (x <- view fuel m v ;; Done (sv_size x)) /\
    length fuel m v
      = (x <- operator_basic_string_view fuel m v ;; Done (sv_size x)) /\
    (forall x, view fuel m v = Done x ->
               sv_data x = c_str v /\
               length fuel m v = Done (sv_size x)).
Proof.
  intros C m v fuel.
  assert (H : length fuel m v = (x <- view fuel m v ;; Done (sv_size x))).
  { unfold length, view, basic_string_view_from.
    rewrite traits_length_is_length_loop.
    now destruct (length_loop fuel m (c_str v) 0). }
  split; [exact H|]. split; [exact H|].
  intros x Hx. rewrite H, Hx. simpl.
  apply view_sound in Hx. destruct Hx as (cs & _ & _ & ->). auto.
Qed.

(* ================================================================== *)
(** * Presence, and where a null pointer can be dereferenced *)

(** X5. The boolean conversion ([ptr != nullptr]) is the negation of
    [is_null()] ([!ptr]) on every view, and both are decided by the
    wrapped pointer alone: the view is absent exactly when it was built
    from no pointer or from a null one. *)
Theorem operator_bool_negates_is_null :
  forall (C : char_type) (v : basic_safe_string C),
    operator_bool v = negb (is_null v) /\
    (is_null v = true <-> v = default_constructed C) /\
    (operator_bool v = true <-> exists b ofs, v = from_pointer C (Ptr b ofs)).
Proof.
  intros C [[|b ofs]]; simpl; repeat split; try reflexivity;
    try discriminate.
  - intros (b & ofs & H). discriminate.
  - intros _. now exists b, ofs.
Qed.

Lemma c_str_null_iff (C : char_type) (v : basic_safe_string C) :
  c_str v = nullptr <-> is_null v = true /\ supported C = false.
Proof.
  destruct v as [[|b ofs]]; unfold c_str; simpl.
  - destruct C; simpl; split; try discriminate; auto;
      intros (_ & H); discriminate.
  - split; [discriminate | intros (H & _); discriminate].
Qed.

(** X6. [c_str()] (and the implicit conversion to [const Char*]) returns
    the wrapped pointer whenever one is present, and is null exactly when
    the view is absent and the character type is not one of the five; for
    a supported character type it is never null. *)
Theorem c_str_null_exactly_when_absent_unsupported :
  forall (C : char_type) (v : basic_safe_string C),
    (is_null v = false -> c_str v = ptr v) /\
    (c_str v = nullptr <-> is_null v = true /\ supported C = false) /\
    (supported C = true -> c_str v <> nullptr) /\
    operator_const_Char_ptr v = c_str v /\
    begin v = c_str v.
Proof.
  intros C v. split; [|split; [apply c_str_null_iff|split]].
  - destruct v as [[|b ofs]]; simpl; [discriminate | reflexivity].
  - intros Hs Hn. apply c_str_null_iff in Hn. destruct Hn as (_ & Hn).
    congruence.
  - split; reflexivity.
Qed.

Lemma c_str_present_witness :
  c_str (from_pointer (other_char 7) (buffer 2)) = buffer 2 /\
  c_str (default_constructed char32_t) <> nullptr.
Proof.
  split.
  - exact (proj1 (c_str_null_exactly_when_absent_unsupported
                    (other_char 7) (from_pointer (other_char 7) (buffer 2)))
                 eq_refl).
  - exact (proj1 (proj2 (proj2
             (c_str_null_exactly_when_absent_unsupported
                char32_t (default_constructed char32_t)))) eq_refl).
Defined.

Lemma load_Ptr_no_null (m : memory) (b : block) (i : N) :
  load m (Ptr b i) <> Fault NullDeref.
Proof.
  unfold load. destruct (block_contents m b) as [l|]; [|discriminate].
  destruct (nth_error l (N.to_nat i)); discriminate.
Qed.

Lemma bind_no_null {A B : Type} (x : outcome A) (k : A -> outcome B) :
  x <> Fault NullDeref ->
  (forall a, x = Done a -> k a <> Fault NullDeref) ->
  bind x k <> Fault NullDeref.
Proof.
  intros Hx Hk. destruct x as [a|f|]; simpl.
  - now apply Hk.
  - intros H. apply Hx. injection H as ->. reflexivity.
  - discriminate.
Qed.

Lemma length_loop_no_null (m : memory) (b : block) (ofs : N) (fuel : nat) :
  forall len, length_loop fuel m (Ptr b ofs) len <> Fault NullDeref.
Proof.
  induction fuel as [|fuel IH]; intros len; simpl; [discriminate|].
  apply bind_no_null; [apply load_Ptr_no_null|].
  intros c _. destruct (negb (Z.eqb c Char_zero)); [apply IH | discriminate].
Qed.

Lemma read_chars_no_null (m : memory) (b : block) (n : nat) :
  forall ofs, read_chars m (Ptr b ofs) n <> Fault NullDeref.
Proof.
  induction n as [|n IH]; intros ofs; simpl; [discriminate|].
  apply bind_no_null; [apply load_Ptr_no_null|].
  intros c _. apply bind_no_null; [apply IH | discriminate].
Qed.

Lemma traits_compare_no_null (L : std_library) (m : memory) (b c : block)
  (n : nat) :
  forall i j, traits_compare m (Ptr b i) (Ptr c j) n <> Fault NullDeref.
Proof.
  induction n as [|n IH]; intros i j; simpl; [discriminate|].
  apply bind_no_null; [apply load_Ptr_no_null|]. intros x _.
  apply bind_no_null; [apply load_Ptr_no_null|]. intros y _.
  destruct (Z.ltb x y); [discriminate|].
  destruct (Z.ltb y x); [discriminate|]. apply IH.
Qed.

(** The operations on one view, from a non-null [c_str()]. *)
Lemma single_view_no_null (C : char_type) (m : memory)
  (v : basic_safe_string C) (fuel : nat) :
  c_str v <> nullptr ->
  string fuel m v <> Fault NullDeref /\
  view fuel m v <> Fault NullDeref /\
  length fuel m v <> Fault NullDeref.
Proof.
  intros Hn. unfold string, view, length,
    basic_string_from, basic_string_view_from.
  rewrite traits_length_is_length_loop.
  destruct (c_str v) as [|b ofs]; [congruence|]. clear Hn.
  pose proof (length_loop_no_null m b ofs fuel 0%N) as Hl.
  repeat split.
  - apply bind_no_null; [exact Hl|]. intros n _. apply read_chars_no_null.
  - apply bind_no_null; [exact Hl|]. discriminate.
  - exact Hl.
Qed.

(** X7. [view()] (and so the implicit conversion to
    [std::basic_string_view]) and the scan of [length()] dereference a
    null pointer exactly when the view is absent and its character type
    is not one of the five (and the operation runs at all).  In every
    other case, whatever the wrapped pointer refers to and whatever the
    memory holds, they dereference no null pointer. *)
Theorem null_dereference_exactly_when_absent_unsupported :
  forall (C : char_type) (m : memory) (v : basic_safe_string C)
         (fuel : nat),
    let absent_unsupported :=
      (0 < fuel)%nat /\ is_null v = true /\ supported C = false in
    (view fuel m v = Fault NullDeref <-> absent_unsupported) /\
    (operator_basic_string_view fuel m v = Fault NullDeref
     <-> absent_unsupported) /\
    (length fuel m v = Fault NullDeref <-> absent_unsupported).
Proof.
  intros C m v fuel absent_unsupported. subst absent_unsupported.
  assert (Hback : (0 < fuel)%nat /\ is_null v = true /\ supported C = false ->
                  view fuel m v = Fault NullDeref /\
                  length fuel m v = Fault NullDeref).
  { intros (Hf & Hv & Hs).
    assert (Hc : c_str v = nullptr) by (apply c_str_null_iff; auto).
    unfold view, length, basic_string_view_from.
    rewrite Hc. destruct fuel as [|fuel]; [lia|]. simpl. auto. }
  assert (Hforth : forall A (op : outcome A),
             (c_str v <> nullptr -> op <> Fault NullDeref) ->
             (fuel = O -> op <> Fault NullDeref) ->
             op = Fault NullDeref ->
             (0 < fuel)%nat /\ is_null v = true /\ supported C = false).
  { intros A op Hp H0 Hop.
    destruct fuel as [|fuel]; [exfalso; now apply H0|].
    split; [lia|]. apply c_str_null_iff.
    destruct (c_str v) as [|b ofs] eqn:Hc; [reflexivity|].
    exfalso. apply Hp; [discriminate | exact Hop]. }
  pose proof (single_view_no_null C m v fuel) as Hnn.
  unfold operator_basic_string_view.
  split; [|split];
    (split;
     [ apply Hforth; [intros H; apply Hnn in H; tauto
                     | intros ->; discriminate]
     | intros H; apply Hback in H; tauto ]).
Qed.

Lemma view_no_null (C : char_type) (m : memory) (v : basic_safe_string C)
  (fuel : nat) :
  c_str v <> nullptr -> view fuel m v <> Fault NullDeref.
Proof. intros H. now apply single_view_no_null. Qed.

Lemma view_data (C : char_type) (m : memory) (v : basic_safe_string C)
  (fuel : nat) (x : basic_string_view) :
  view fuel m v = Done x -> sv_data x = c_str v.
Proof.
  intros H. apply view_sound in H. destruct H as (cs & _ & _ & ->).
  reflexivity.
Qed.

Lemma sv_compare_no_null (L : std_library) (m : memory)
  (x y : basic_string_view) :
  sv_data x <> nullptr -> sv_data y <> nullptr ->
  sv_compare m x y <> Fault NullDeref.
Proof.
  intros Hx Hy. unfold sv_compare.
  destruct (sv_data x) as [|b i]; [congruence|].
  destruct (sv_data y) as [|c j]; [congruence|].
  apply bind_no_null; [apply traits_compare_no_null|].
  intros r _. destruct (Z.eqb r 0); discriminate.
Qed.

(** Both views, then the library comparison: no null pointer is read when
    neither [c_str()] is null. *)
Lemma compared_views_no_null (C : char_type) (m : memory)
  (a b : basic_safe_string C) (fuel : nat)
  (A : Type) (k : basic_string_view -> basic_string_view -> outcome A) :
  c_str a <> nullptr -> c_str b <> nullptr ->
  (forall x y, sv_data x <> nullptr -> sv_data y <> nullptr ->
               k x y <> Fault NullDeref) ->
  (x <- view fuel m a ;; y <- view fuel m b ;; k x y) <> Fault NullDeref.
Proof.
  intros Ha Hb Hk.
  apply bind_no_null; [now apply view_no_null|]. intros x Hx.
  apply bind_no_null; [now apply view_no_null|]. intros y Hy.
  apply view_data in Hx, Hy. apply Hk; congruence.
Qed.

(** X8. No comparison of two views dereferences a null pointer when the
    character type is one of the five, or when both references are
    present: this holds for [operator<=>] and for the six relational
    expressions of either build, whatever the two pointers refer to. *)
Theorem comparison_never_dereferences_null :
  forall (L : std_library) (C : char_type) (m : memory)
         (a b : basic_safe_string C)
         (fuel : nat) (three_way : bool) (op : relop),
    supported C = true \/ (is_null a = false /\ is_null b = false) ->
    operator_spaceship fuel m a b <> Fault NullDeref /\
    expr op three_way fuel m a b <> Fault NullDeref.
Proof.
  intros L C m a b fuel tw op H.
  assert (Ha : c_str a <> nullptr).
  { intros Hn. apply c_str_null_iff in Hn. destruct Hn as (Hn & Hs).
    destruct H as [H|(H & _)]; congruence. }
  assert (Hb : c_str b <> nullptr).
  { intros Hn. apply c_str_null_iff in Hn. destruct Hn as (Hn & Hs).
    destruct H as [H|(_ & H)]; congruence. }
  assert (Hcmp : forall x y, sv_data x <> nullptr -> sv_data y <> nullptr ->
                             sv_compare m x y <> Fault NullDeref)
    by (intros; now apply sv_compare_no_null).
  assert (Hsp : operator_spaceship fuel m a b <> Fault NullDeref).
  { unfold operator_spaceship. apply compared_views_no_null; auto.
    intros x y Hx Hy. unfold sv_spaceship.
    apply bind_no_null; [auto | discriminate]. }
  assert (Heq : operator_eq fuel m a b <> Fault NullDeref).
  { unfold operator_eq. apply compared_views_no_null; auto.
    intros x y Hx Hy. unfold sv_equal.
    apply bind_no_null; [auto | discriminate]. }
  assert (Hcv : compare_views fuel m a b <> Fault NullDeref).
  { unfold compare_views. apply compared_views_no_null; auto. }
  split; [exact Hsp|].
  destruct op, tw; cbn [expr expr_eq expr_ne expr_lt expr_le expr_gt expr_ge];
    unfold operator_ne, operator_lt, operator_le, operator_gt, operator_ge;
    try exact Heq;
    (apply bind_no_null; [assumption | discriminate]).
Qed.

Lemma comparison_never_dereferences_null_witness :
  expr (L := difference_library) LT true 1 example_unterminated
       (from_pointer (other_char 3) (buffer 0))
       (from_pointer (other_char 3) (buffer 9)) <> Fault NullDeref /\
  expr (L := difference_library) EQ false 3 example_unterminated
       (default_constructed wchar_t)
       (from_pointer wchar_t (buffer 0)) <> Fault NullDeref.
Proof.
  split.
  - exact (proj2 (comparison_never_dereferences_null
                    difference_library
                    (other_char 3) example_unterminated
                    (from_pointer (other_char 3) (buffer 0))
                    (from_pointer (other_char 3) (buffer 9))
                    1 true LT (or_intror (conj eq_refl eq_refl)))).
  - exact (proj2 (comparison_never_dereferences_null
                    difference_library
                    wchar_t example_unterminated
                    (default_constructed wchar_t)
                    (from_pointer wchar_t (buffer 0))
                    3 false EQ (or_introl eq_refl))).
Defined.

(* ================================================================== *)
(** * A buffer with no terminator *)

Lemma length_loop_unterminated (m : memory) (b : block) (rest : list Char) :
  forall (pre : list Char) (fuel : nat) (base len : N),
    block_contents m b = Some (pre ++ rest) ->
    Forall (fun c => c <> Char_zero) rest ->
    N.to_nat (base + len) = List.length pre ->
    (List.length rest < fuel)%nat ->
    length_loop fuel m (Ptr b base) len = Fault BadAccess.
Proof.
  induction rest as [|c rest IH]; intros pre fuel base len Hm Hnz Hpos Hf;
    (destruct fuel as [|fuel]; [simpl in Hf; lia|]); simpl.
  - rewrite Hm, Hpos, app_nil_r.
    rewrite (proj2 (nth_error_None pre (List.length pre))) by lia.
    reflexivity.
  - rewrite Hm, Hpos, nth_error_app2, Nat.sub_diag by lia. simpl.
    inversion Hnz as [|? ? Hc Hrest]; subst.
    apply Z.eqb_neq in Hc. rewrite Hc. simpl.
    apply (IH (pre ++ [c])).
    + rewrite Hm, <- app_assoc. reflexivity.
    + exact Hrest.
    + rewrite length_app. simpl. lia.
    + simpl in Hf. lia.
Qed.

(** X9. The view validates nothing: built from a pointer into a live
    buffer that holds no [Char{}] from that position on, the scan of
    [length()], [view()] and [string()] all read past the end of the
    buffer (undefined behaviour), given fuel to reach it. *)
Theorem unterminated_buffer_is_read_past_its_end :
  forall (C : char_type) (m : memory) (b : block) (ofs : N)
         (l : list Char) (fuel : nat),
    block_contents m b = Some l ->
    (N.to_nat ofs <= List.length l)%nat ->
    Forall (fun c => c <> Char_zero) (skipn (N.to_nat ofs) l) ->
    (List.length l - N.to_nat ofs < fuel)%nat ->
    length fuel m (from_pointer C (Ptr b ofs)) = Fault BadAccess /\
    view fuel m (from_pointer C (Ptr b ofs)) = Fault BadAccess /\
    string fuel m (from_pointer C (Ptr b ofs)) = Fault BadAccess.
Proof.
  intros C m b ofs l fuel Hm Hofs Hnz Hf.
  assert (Hl : length_loop fuel m (Ptr b ofs) 0 = Fault BadAccess).
  { apply (length_loop_unterminated m b (skipn (N.to_nat ofs) l)
             (firstn (N.to_nat ofs) l)).
    - now rewrite firstn_skipn.
    - exact Hnz.
    - rewrite length_firstn. lia.
    - rewrite length_skipn. exact Hf. }
  unfold string, view, length, basic_string_from, basic_string_view_from.
  cbn [c_str from_pointer ptr ptr_to_bool].
  rewrite traits_length_is_length_loop, Hl. simpl.
  repeat split.
Qed.

Lemma unterminated_buffer_witness :
  string 3 example_unterminated (from_pointer char (buffer 0))
    = Fault BadAccess /\
  view 3 example_unterminated (from_pointer char (buffer 0))
    = Fault BadAccess.
Proof.
  pose proof (unterminated_buffer_is_read_past_its_end char
                example_unterminated (Ext 0) 0 [97; 98]%Z 3
                eq_refl ltac:(simpl; lia)
                ltac:(simpl; repeat constructor; discriminate)
                ltac:(simpl; lia)) as H.
  destruct H as (_ & Hv & Hs).
  exact (conj Hs Hv).
Defined.

(* ================================================================== *)
(** * The two builds of the comparison operators *)

(** X10. The two branches of [#ifdef __cpp_lib_three_way_comparison] agree:
    on every pair of views, memory and fuel (faults included), each
    ordering expression rewritten from [operator<=>] returns what the
    corresponding hand-written operator returns, [std::is_eq(a <=> b)]
    what [operator==] returns, and [a <=> b] is the sign of
    [view().compare(other.view())]. *)
Theorem three_way_build_agrees_with_operators :
  forall (L : std_library) (C : char_type) (m : memory)
         (a b : basic_safe_string C)
         (fuel : nat) (op : relop),
    expr op true fuel m a b = expr op false fuel m a b /\
    operator_spaceship fuel m a b
      = (r <- compare_views fuel m a b ;; Done (Z.compare r 0)).
Proof.
  intros L C m a b fuel op. split.
  - destruct op; cbn [expr expr_eq expr_ne expr_lt expr_le expr_gt expr_ge];
      unfold operator_spaceship, operator_ne, operator_eq, operator_lt,
        operator_le, operator_gt, operator_ge, compare_views,
        sv_spaceship, sv_equal;
      destruct (view fuel m a) as [x| |]; simpl; try reflexivity;
      destruct (view fuel m b) as [y| |]; simpl; try reflexivity;
      destruct (sv_compare m x y) as [[|p|p]| |]; reflexivity.
  - unfold operator_spaceship, compare_views, sv_spaceship.
    destruct (view fuel m a) as [x| |]; simpl; try reflexivity.
    destruct (view fuel m b) as [y| |]; reflexivity.
Qed.

(* ================================================================== *)
(** * The order on views *)

Lemma lex_lt_irrefl (xs : list Char) : ~ lex_lt xs xs.
Proof.
  induction xs as [|x xs IH]; inversion 1; subst; [lia | auto].
Qed.

Lemma lex_lt_trans (xs : list Char) :
  forall ys zs, lex_lt xs ys -> lex_lt ys zs -> lex_lt xs zs.
Proof.
  induction xs as [|x xs IH]; intros ys zs Hxy Hyz.
  - inversion Hxy; subst. inversion Hyz; subst; constructor.
  - inversion Hxy; subst; inversion Hyz; subst.
    + apply lex_lt_head. lia.
    + now apply lex_lt_head.
    + now apply lex_lt_head.
    + apply lex_lt_tail. eauto.
Qed.

Lemma lex_compare_prefix (xs : list Char) (c : Char) (rest : list Char) :
  lex_compare xs (xs ++ c :: rest) = Lt.
Proof.
  induction xs as [|x xs IH]; simpl; [reflexivity|].
  now rewrite Z.compare_refl.
Qed.

(** X11. On views of null-terminated sequences the operators are each
    other's converses: [a < b] returns what [b > a] returns, [a <= b]
    what [b >= a] returns, and [a <=> b] is the reverse of [b <=> a]. *)
Theorem converse_operators_agree :
  forall (L : std_library) (C : char_type) (m : memory)
         (a b : basic_safe_string C)
         (ca cb : list Char) (fuel : nat) (three_way : bool),
    cstr_at m (c_str a) ca -> cstr_at m (c_str b) cb ->
    (List.length ca < fuel)%nat -> (List.length cb < fuel)%nat ->
    expr LT three_way fuel m a b = expr GT three_way fuel m b a /\
    expr LE three_way fuel m a b = expr GE three_way fuel m b a /\
    expr EQ three_way fuel m a b = expr EQ three_way fuel m b a /\
    expr NE three_way fuel m a b = expr NE three_way fuel m b a /\
    (forall o, operator_spaceship fuel m a b = Done o ->
               operator_spaceship fuel m b a = Done (CompOpp o)).
Proof.
  intros L C m a b ca cb fuel tw Ha Hb Hfa Hfb.
  rewrite !(expr_cstr m a b ca cb Ha Hb fuel Hfa Hfb).
  rewrite !(expr_cstr m b a cb ca Hb Ha fuel Hfb Hfa).
  rewrite (operator_spaceship_cstr m a b ca cb Ha Hb fuel Hfa Hfb).
  rewrite (operator_spaceship_cstr m b a cb ca Hb Ha fuel Hfb Hfa).
  rewrite (lex_compare_antisym ca cb). cbn [holds].
  repeat split; try (now destruct (lex_compare ca cb)).
  intros o H. injection H as <-. reflexivity.
Qed.

Lemma converse_operators_agree_witness :
  expr (L := difference_library) LT false 4 example_memory
       (from_pointer char (buffer 0))
       (from_pointer char (buffer 1))
  = expr (L := difference_library) GT false 4 example_memory
       (from_pointer char (buffer 1))
       (from_pointer char (buffer 0)).
Proof.
  exact (proj1 (converse_operators_agree difference_library char
                  example_memory
                  (from_pointer char (buffer 0))
                  (from_pointer char (buffer 1))
                  [97; 98; 99]%Z [97; 98; 100]%Z 4 false
                  example_abc example_abd
                  ltac:(simpl; lia) ltac:(simpl; lia))).
Defined.

(** X12. On views of null-terminated sequences [<] is a strict order and
    [<=] a total preorder whose symmetric part is [==]: [a < a] is false,
    [<] and [<=] are transitive, [a <= b] and [b <= a] give [a == b], and
    one of [a <= b], [b <= a] always holds.  So views can key an ordered
    container or be sorted. *)
Theorem less_than_is_a_strict_total_order :
  forall (L : std_library) (C : char_type) (m : memory)
         (a b c : basic_safe_string C)
         (ca cb cc : list Char) (fuel : nat) (three_way : bool),
    cstr_at m (c_str a) ca -> cstr_at m (c_str b) cb ->
    cstr_at m (c_str c) cc ->
    (List.length ca < fuel)%nat -> (List.length cb < fuel)%nat ->
    (List.length cc < fuel)%nat ->
    expr LT three_way fuel m a a = Done false /\
    (expr LT three_way fuel m a b = Done true ->
     expr LT three_way fuel m b c = Done true ->
     expr LT three_way fuel m a c = Done true) /\
    (expr LE three_way fuel m a b = Done true ->
     expr LE three_way fuel m b c = Done true ->
     expr LE three_way fuel m a c = Done true) /\
    (expr LE three_way fuel m a b = Done true ->
     expr LE three_way fuel m b a = Done true ->
     expr EQ three_way fuel m a b = Done true) /\
    (expr LE three_way fuel m a b = Done true \/
     expr LE three_way fuel m b a = Done true).
Proof.
  intros L C m a b c ca cb cc fuel tw Ha Hb Hc Hfa Hfb Hfc.
  rewrite !(expr_cstr m a a ca ca Ha Ha fuel Hfa Hfa).
  rewrite !(expr_cstr m a b ca cb Ha Hb fuel Hfa Hfb).
  rewrite !(expr_cstr m b a cb ca Hb Ha fuel Hfb Hfa).
  rewrite !(expr_cstr m b c cb cc Hb Hc fuel Hfb Hfc).
  rewrite !(expr_cstr m a c ca cc Ha Hc fuel Hfa Hfc).
  cbn [holds]. rewrite lex_compare_refl.
  assert (Hlt : forall xs ys,
             Done (is_lt (lex_compare xs ys)) = Done true <-> lex_lt xs ys).
  { intros xs ys. rewrite <- lex_compare_lt.
    destruct (lex_compare xs ys); simpl; split; congruence. }
  assert (Hle : forall xs ys,
             Done (negb (is_gt (lex_compare xs ys))) = Done true <->
             lex_lt xs ys \/ xs = ys).
  { intros xs ys. rewrite <- lex_compare_lt, <- lex_compare_eq.
    destruct (lex_compare xs ys); simpl; split; try tauto; try congruence.
    intros [H|H]; discriminate. }
  split; [reflexivity|]. split; [|split; [|split]].
  - rewrite !Hlt. apply lex_lt_trans.
  - rewrite !Hle. intros [H1| ->] [H2| ->]; auto.
    left. eapply lex_lt_trans; eauto.
  - rewrite !Hle. intros [H1| ->] [H2|H2].
    + exfalso. apply (lex_lt_irrefl ca). eapply lex_lt_trans; eauto.
    + subst. now rewrite lex_compare_refl.
    + now rewrite lex_compare_refl.
    + now rewrite lex_compare_refl.
  - rewrite (lex_compare_antisym ca cb).
    destruct (lex_compare ca cb); simpl; auto.
Qed.

Lemma less_than_is_a_strict_total_order_witness :
  expr (L := difference_library) LT true 4 example_memory
       (from_pointer char (buffer 3))
       (from_pointer char (buffer 1)) = Done true.
Proof.
  pose proof (less_than_is_a_strict_total_order difference_library char
                example_memory
                (from_pointer char (buffer 3))
                (from_pointer char (buffer 0))
                (from_pointer char (buffer 1))
                [] [97; 98; 99]%Z [97; 98; 100]%Z 4 true
                example_empty example_abc example_abd
                ltac:(simpl; lia) ltac:(simpl; lia) ltac:(simpl; lia))
    as H.
  destruct H as (_ & Htrans & _).
  exact (Htrans eq_refl eq_refl).
Defined.

(** X13. For a supported character type an absent view is the least
    view: it is [<=] every view of a null-terminated sequence, no view is
    [<] it, and it is [==] exactly to the views of the empty sequence. *)
Theorem absent_view_is_least :
  forall (L : std_library) (C : char_type) (m : memory)
         (x : basic_safe_string C)
         (cx : list Char) (fuel : nat) (three_way : bool),
    supported C = true ->
    cstr_at m (c_str x) cx ->
    (List.length cx < fuel)%nat ->
    expr LE three_way fuel m (default_constructed C) x = Done true /\
    expr LT three_way fuel m x (default_constructed C) = Done false /\
    (expr EQ three_way fuel m (default_constructed C) x = Done true
     <-> cx = []) /\
    (expr LT three_way fuel m (default_constructed C) x = Done true
     <-> cx <> []).
Proof.
  intros L C m x cx fuel tw Hs Hx Hf.
  assert (Hd : cstr_at m (c_str (default_constructed C)) []).
  { rewrite c_str_absent_supported by assumption. apply cstr_at_literal. }
  assert (Hf0 : (List.length (@nil Char) < fuel)%nat) by (simpl; lia).
  rewrite !(expr_cstr m _ x [] cx Hd Hx fuel Hf0 Hf).
  rewrite !(expr_cstr m x _ cx [] Hx Hd fuel Hf Hf0).
  cbn [holds]. destruct cx as [|c cx]; simpl; repeat split;
    try congruence; try discriminate.
Qed.

Lemma absent_view_is_least_witness :
  expr (L := difference_library) LE false 4 example_memory
       (default_constructed char)
       (from_pointer char (buffer 0)) = Done true.
Proof.
  exact (proj1 (absent_view_is_least difference_library char
                  example_memory
                  (from_pointer char (buffer 0)) [97; 98; 99]%Z 4 false
                  eq_refl example_abc ltac:(simpl; lia))).
Defined.

(** X14. A view whose sequence is a proper prefix of another's compares
    less than it: after the common characters compare equal, the shorter
    length decides, and [view().compare(other.view())] is negative. *)
Theorem proper_prefix_compares_less :
  forall (L : std_library) (C : char_type) (m : memory)
         (a b : basic_safe_string C)
         (ca rest : list Char) (c : Char) (fuel : nat) (three_way : bool),
    cstr_at m (c_str a) ca ->
    cstr_at m (c_str b) (ca ++ c :: rest) ->
    (List.length (ca ++ c :: rest) < fuel)%nat ->
    expr LT three_way fuel m a b = Done true /\
    expr GT three_way fuel m b a = Done true /\
    expr EQ three_way fuel m a b = Done false /\
    (exists r, compare_views fuel m a b = Done r /\ (r < 0)%Z).
Proof.
  intros L C m a b ca rest c fuel tw Ha Hb Hfb.
  assert (Hfa : (List.length ca < fuel)%nat)
    by (rewrite length_app in Hfb; simpl in Hfb; lia).
  rewrite !(expr_cstr m a b ca _ Ha Hb fuel Hfa Hfb).
  rewrite !(expr_cstr m b a _ ca Hb Ha fuel Hfb Hfa).
  rewrite (compare_views_cstr m a b ca _ Ha Hb fuel Hfa Hfb).
  rewrite (lex_compare_antisym ca (ca ++ c :: rest)).
  rewrite lex_compare_prefix. repeat split.
  eexists. split; [reflexivity|].
  unfold Z.lt. rewrite compare_result_sign. apply lex_compare_prefix.
Qed.

Lemma proper_prefix_compares_less_witness :
  expr (L := difference_library) LT false 4 example_memory_later
       (from_pointer char (buffer 0))
       (from_pointer char (buffer 2)) = Done true /\
  compare_views (L := difference_library) 4 example_memory_later
       (from_pointer char (buffer 0))
       (from_pointer char (buffer 2)) = Done (-2)%Z.
Proof.
  pose proof (proper_prefix_compares_less difference_library char
                example_memory_later
                (from_pointer char (buffer 0))
                (from_pointer char (buffer 2))
                [97]%Z [99]%Z 98%Z 4 false
                example_a_later
                ltac:(simpl; repeat split; discriminate)
                ltac:(simpl; lia)) as H.
  destruct H as (Hlt & _ & _ & _).
  exact (conj Hlt eq_refl).
Defined.

Lemma expr_done_views (L : std_library) (C : char_type) (m : memory)
  (a b : basic_safe_string C) (fuel : nat) (tw : bool) (op : relop)
  (r : bool) :
  expr op tw fuel m a b = Done r ->
  exists x y, view fuel m a = Done x /\ view fuel m b = Done y.
Proof.
  destruct op, tw;
    cbn [expr expr_eq expr_ne expr_lt expr_le expr_gt expr_ge];
    unfold operator_spaceship, operator_ne, operator_eq, operator_lt,
      operator_le, operator_gt, operator_ge, compare_views;
    (destruct (view fuel m a) as [x| |]; simpl; try discriminate);
    (destruct (view fuel m b) as [y| |]; simpl; try discriminate);
    eauto.
Qed.

(** X15. A relational expression on two views returns [r] exactly when
    both [c_str()] point to null-terminated sequences and [r] is what the
    lexicographic comparison of the two sequences says: a comparison that
    returns at all has compared the characters before the two first
    terminators, and nothing else. *)
Theorem comparison_returns_exactly_the_lexicographic_result :
  forall (L : std_library) (C : char_type) (m : memory)
         (a b : basic_safe_string C)
         (fuel : nat) (three_way : bool) (op : relop) (r : bool),
    expr op three_way fuel m a b = Done r <->
    exists ca cb,
      cstr_at m (c_str a) ca /\ cstr_at m (c_str b) cb /\
      (List.length ca < fuel)%nat /\ (List.length cb < fuel)%nat /\
      r = holds op (lex_compare ca cb).
Proof.
  intros L C m a b fuel tw op r. split.
  - intros H. destruct (expr_done_views L C m a b fuel tw op r H)
      as (x & y & Hx & Hy).
    apply view_sound in Hx, Hy.
    destruct Hx as (ca & Ha & Hfa & _), Hy as (cb & Hb & Hfb & _).
    exists ca, cb.
    rewrite (expr_cstr m a b ca cb Ha Hb fuel Hfa Hfb) in H.
    injection H as <-. auto.
  - intros (ca & cb & Ha & Hb & Hfa & Hfb & ->).
    now apply expr_cstr.
Qed.

(* ================================================================== *)
(** * Polarity of sentinel_result configurations *)

(** X16. With [std::less<int>] as predicate, as in the header's example
    [sentinel_result<int, 0, std::less<int>>], [is_ok()] holds exactly for
    the values below the sentinel and [has_error()] for the sentinel and
    everything above it: with sentinel [0], negative values are ok and [0]
    itself is an error. *)
Theorem less_predicate_accepts_values_below_sentinel :
  forall (sentinel v : int),
    (is_ok (Build_sentinel_result sentinel less_int v) = true
     <-> (v < sentinel)%Z) /\
    (has_error (Build_sentinel_result sentinel less_int v) = true
     <-> (sentinel <= v)%Z) /\
    has_error (Build_sentinel_result sentinel less_int sentinel) = true /\
    value (Build_sentinel_result sentinel less_int v) = v.
Proof.
  intros s v. unfold has_error, is_ok, value, less_int. simpl.
  repeat split.
  - apply Z.ltb_lt.
  - apply Z.ltb_lt.
  - intros H. apply negb_true_iff, Z.ltb_ge in H. exact H.
  - intros H. apply negb_true_iff, Z.ltb_ge. exact H.
  - apply negb_true_iff, Z.ltb_irrefl.
Qed.

(** X17. For every element type whose [operator==] decides equality and
    every sentinel: with [std::equal_to], [is_ok()] holds exactly for the
    sentinel; with [std::not_equal_to] (as in the header's example
    [sentinel_result<const char*, nullptr, std::not_equal_to<...>>]),
    exactly for every other value; exchanging the two predicates
    exchanges [is_ok()] and [has_error()]. *)
Theorem equality_predicates_are_complementary :
  forall (T : Type) (E : Element T) (L : ElementLaws T) (sentinel v : T),
    (is_ok (Build_sentinel_result sentinel equal_to v) = true
     <-> v = sentinel) /\
    (is_ok (Build_sentinel_result sentinel not_equal_to v) = true
     <-> v <> sentinel) /\
    is_ok (Build_sentinel_result sentinel not_equal_to v)
      = has_error (Build_sentinel_result sentinel equal_to v) /\
    has_error (Build_sentinel_result sentinel not_equal_to v)
      = is_ok (Build_sentinel_result sentinel equal_to v).
Proof.
  intros T E L s v. unfold has_error, is_ok, equal_to, not_equal_to. simpl.
  repeat split.
  - apply op_equal_spec.
  - apply op_equal_spec.
  - intros H Hv. apply op_equal_spec in Hv. rewrite Hv in H. discriminate.
  - intros H. apply negb_true_iff.
    destruct (op_equal v s) eqn:Heq; [|reflexivity].
    apply op_equal_spec in Heq. contradiction.
  - now rewrite negb_involutive.
Qed.

Lemma equality_predicates_witness :
  is_ok (Build_sentinel_result (nullptr : pointer) not_equal_to (buffer 0))
    = true /\
  is_ok (Build_sentinel_result (nullptr : pointer) not_equal_to nullptr)
    = has_error (Build_sentinel_result (nullptr : pointer) equal_to nullptr).
Proof.
  split.
  - apply (proj1 (proj2 (equality_predicates_are_complementary
                           pointer Element_pointer ElementLaws_pointer
                           nullptr (buffer 0)))).
    discriminate.
  - exact (proj1 (proj2 (proj2 (equality_predicates_are_complementary
                           pointer Element_pointer ElementLaws_pointer
                           nullptr nullptr)))).
Defined.

(* ================================================================== *)
(** * Views and their owned copies; views into the middle of a buffer *)

(** X18. Comparing two views is comparing their owned copies: [a == b]
    returns true exactly when [string()] returns the same characters for
    both, and [a < b] exactly when the copy of [a] is lexicographically
    less than the copy of [b]. *)
Theorem comparison_agrees_with_owned_copies :
  forall (L : std_library) (C : char_type) (m : memory)
         (a b : basic_safe_string C)
         (fuel : nat) (three_way : bool),
    (expr EQ three_way fuel m a b = Done true <->
     exists cs, string fuel m a = Done cs /\ string fuel m b = Done cs) /\
    (expr LT three_way fuel m a b = Done true <->
     exists ca cb, string fuel m a = Done ca /\ string fuel m b = Done cb /\
                   lex_lt ca cb).
Proof.
  intros L C m a b fuel tw. split; split.
  - intros H. destruct (expr_done_views L C m a b fuel tw EQ true H)
      as (x & y & Hx & Hy).
    apply view_sound in Hx, Hy.
    destruct Hx as (ca & Ha & Hfa & _), Hy as (cb & Hb & Hfb & _).
    rewrite (expr_cstr m a b ca cb Ha Hb fuel Hfa Hfb) in H.
    cbn [holds] in H.
    assert (lex_compare ca cb = Eq) as E
        by (destruct (lex_compare ca cb); simpl in H; congruence).
    apply lex_compare_eq in E. subst cb.
    exists ca. split; now apply string_cstr.
  - intros (cs & Ha & Hb). apply string_sound in Ha, Hb.
    destruct Ha as (Ha & Hfa), Hb as (Hb & Hfb).
    rewrite (expr_cstr m a b cs cs Ha Hb fuel Hfa Hfb). cbn [holds].
    now rewrite lex_compare_refl.
  - intros H. destruct (expr_done_views L C m a b fuel tw LT true H)
      as (x & y & Hx & Hy).
    apply view_sound in Hx, Hy.
    destruct Hx as (ca & Ha & Hfa & _), Hy as (cb & Hb & Hfb & _).
    rewrite (expr_cstr m a b ca cb Ha Hb fuel Hfa Hfb) in H.
    cbn [holds] in H.
    assert (lex_compare ca cb = Lt) as E
        by (destruct (lex_compare ca cb); simpl in H; congruence).
    apply lex_compare_lt in E.
    exists ca, cb. repeat split; [now apply string_cstr.. | exact E].
  - intros (ca & cb & Ha & Hb & Hlt). apply string_sound in Ha, Hb.
    destruct Ha as (Ha & Hfa), Hb as (Hb & Hfb).
    rewrite (expr_cstr m a b ca cb Ha Hb fuel Hfa Hfb). cbn [holds].
    apply lex_compare_lt in Hlt. now rewrite Hlt.
Qed.

Lemma cstr_at_suffix (m : memory) (k : nat) :
  forall (cs : list Char) (p : pointer),
    cstr_at m p cs -> (k <= List.length cs)%nat ->
    cstr_at m (ptr_add p (N.of_nat k)) (skipn k cs).
Proof.
  induction k as [|k IH]; intros cs p H Hk.
  - simpl. now rewrite ptr_add_0.
  - destruct cs as [|c cs]; [simpl in Hk; lia|].
    destruct H as (_ & _ & H). apply (IH cs) in H; [|simpl in Hk; lia].
    rewrite ptr_add_add in H.
    replace (N.of_nat (S k)) with (1 + N.of_nat k)%N by lia.
    exact H.
Qed.

(** X19. A view constructed from a pointer [k] characters into a
    null-terminated sequence stands for the rest of the sequence:
    [string()] gives the characters from the [k]-th on, [view()] has that
    pointer and the remaining length, and the two views compare as the
    suffix and the whole sequence do. *)
Theorem view_into_the_middle_is_the_suffix :
  forall (L : std_library) (C : char_type) (m : memory) (b : block)
         (ofs : N) (cs : list Char) (k fuel : nat) (three_way : bool)
         (op : relop),
    cstr_at m (Ptr b ofs) cs ->
    (k <= List.length cs)%nat ->
    (List.length cs < fuel)%nat ->
    string fuel m (from_pointer C (Ptr b (ofs + N.of_nat k)))
      = Done (skipn k cs) /\
    view fuel m (from_pointer C (Ptr b (ofs + N.of_nat k)))
      = Done {| sv_data := Ptr b (ofs + N.of_nat k);
                sv_size := N.of_nat (List.length cs - k) |} /\
    length fuel m (from_pointer C (Ptr b (ofs + N.of_nat k)))
      = Done (N.of_nat (List.length cs - k)) /\
    expr op three_way fuel m
         (from_pointer C (Ptr b (ofs + N.of_nat k)))
         (from_pointer C (Ptr b ofs))
      = Done (holds op (lex_compare (skipn k cs) cs)).
Proof.
  intros L C m b ofs cs k fuel tw op H Hk Hf.
  pose proof (cstr_at_suffix m k cs (Ptr b ofs) H Hk) as Hs.
  cbn [ptr_add] in Hs.
  assert (Hfs : (List.length (skipn k cs) < fuel)%nat)
    by (rewrite length_skipn; lia).
  split; [now apply string_cstr|].
  split.
  { rewrite (view_cstr m (from_pointer C (Ptr b (ofs + N.of_nat k)))
               (skipn k cs) Hs fuel Hfs).
    now rewrite length_skipn. }
  split.
  { rewrite (length_cstr m (from_pointer C (Ptr b (ofs + N.of_nat k)))
               (skipn k cs) Hs fuel Hfs).
    now rewrite length_skipn. }
  now apply expr_cstr.
Qed.

Lemma view_into_the_middle_witness :
  string 4 example_memory (from_pointer char (Ptr (Ext 0) (0 + 1)))
    = Done [98; 99]%Z /\
  expr (L := difference_library) GT false 4 example_memory
       (from_pointer char (Ptr (Ext 0) (0 + 1)))
       (from_pointer char (Ptr (Ext 0) 0)) = Done true.
Proof.
  pose proof (view_into_the_middle_is_the_suffix difference_library char
                example_memory (Ext 0) 0 [97; 98; 99]%Z 1 4 false GT
                example_abc ltac:(simpl; lia) ltac:(simpl; lia)) as H.
  destruct H as (Hs & _ & _ & He).
  exact (conj Hs He).
Defined.
